(** * F-Book: the link-metadata pipeline of [dist/index.js]

    A shallow embedding of the pure core of the plugin: the URL locator
    ([findUrlInBlock]), the rule matcher ([matchRule]), static extraction
    ([extractMetadataStatic]), the asset resolver ([processProperties]),
    the property formatter inside [applyMetadataToBlock] and the schema
    reconciler ([syncTagSchema]).

    Host facilities (the regular-expression engine, [fetch], [atob], the
    [orca] backend) are parameters of the sections that use them; awaited
    calls are sequenced through an explicit world. *)

From Stdlib Require Import List Bool Arith NArith ZArith Lia String Ascii.
From Stdlib Require Import SpecFloat DecimalString.
Import ListNotations.

Set Implicit Arguments.

(* ===================================================================== *)
(** ** JavaScript strings *)
(* ===================================================================== *)

Module JS.

(** A JavaScript string is a sequence of UTF-16 code units. *)
Definition jsstring := list N.

Fixpoint js (s : string) : jsstring :=
  match s with
  | EmptyString => []
  | String a s' => N_of_ascii a :: js s'
  end.

Fixpoint jseqb (a b : jsstring) : bool :=
  match a, b with
  | [], [] => true
  | x :: a', y :: b' => (x =? y)%N && jseqb a' b'
  | _, _ => false
  end.

(** [s.startsWith(p)] *)
Fixpoint startsWith (p s : jsstring) : bool :=
  match p, s with
  | [], _ => true
  | x :: p', y :: s' => (x =? y)%N && startsWith p' s'
  | _ :: _, [] => false
  end.

(** [s.includes(p)] *)
Fixpoint includes (p s : jsstring) : bool :=
  startsWith p s ||
  match s with
  | [] => false
  | _ :: s' => includes p s'
  end.

(** WhiteSpace and LineTerminator code units: the class [\s] of regular
    expressions, which is also what [trim] strips. *)
Definition isWhiteSpace (c : N) : bool :=
  (((9 <=? c) && (c <=? 13)) || (c =? 32) || (c =? 160) || (c =? 5760)
   || ((8192 <=? c) && (c <=? 8202)) || (c =? 8232) || (c =? 8233)
   || (c =? 8239) || (c =? 8287) || (c =? 12288) || (c =? 65279))%N.

(** LineTerminator code units: what [.] does not match. *)
Definition isLineTerminator (c : N) : bool :=
  ((c =? 10) || (c =? 13) || (c =? 8232) || (c =? 8233))%N.

Fixpoint trimStart (s : jsstring) : jsstring :=
  match s with
  | c :: s' => if isWhiteSpace c then trimStart s' else s
  | [] => []
  end.

Definition trimEnd (s : jsstring) : jsstring := rev (trimStart (rev s)).

(** [s.trim()] *)
Definition trim (s : jsstring) : jsstring := trimEnd (trimStart s).

(** The longest prefix of code units satisfying [f], and what follows it. *)
Fixpoint span (f : N -> bool) (s : jsstring) : jsstring * jsstring :=
  match s with
  | c :: s' =>
      if f c then let (a, b) := span f s' in (c :: a, b) else ([], s)
  | [] => ([], [])
  end.

(** [s.lastIndexOf(String.fromCharCode(c))], [-1] when absent. *)
Fixpoint lastIndexOf_from (c : N) (s : jsstring) (i : Z) (acc : Z) : Z :=
  match s with
  | [] => acc
  | x :: s' => lastIndexOf_from c s' (i + 1) (if (x =? c)%N then i else acc)
  end.

Definition lastIndexOf (c : N) (s : jsstring) : Z := lastIndexOf_from c s 0 (-1).

(** [s.substring(a, b)] for [0 <= a <= b]; [s.substring(a)] is [skipn]. *)
Definition substring (a b : Z) (s : jsstring) : jsstring :=
  firstn (Z.to_nat (b - a)) (skipn (Z.to_nat a) s).

(** [s.split(" ")]: the pieces between single U+0020 separators. *)
Fixpoint split_space_aux (s cur : jsstring) : list jsstring :=
  match s with
  | [] => [rev cur]
  | c :: s' =>
      if (c =? 32)%N then rev cur :: split_space_aux s' []
      else split_space_aux s' (c :: cur)
  end.

Definition split_space (s : jsstring) : list jsstring := split_space_aux s [].

(** Truthiness of a string: non-empty. *)
Definition nonempty (s : jsstring) : bool :=
  match s with [] => false | _ :: _ => true end.

Lemma jseqb_eq a b : jseqb a b = true <-> a = b.
Proof.
  revert b; induction a as [|x a IH]; intros [|y b]; simpl; split;
    try congruence; try reflexivity.
  - intros H. apply andb_true_iff in H as [H1 H2].
    apply N.eqb_eq in H1. apply IH in H2. congruence.
  - intros H. injection H as -> ->. rewrite N.eqb_refl. simpl. now apply IH.
Qed.

Lemma startsWith_app p s : startsWith p s = true <-> exists r, s = p ++ r.
Proof.
  revert s; induction p as [|x p IH]; intros s; simpl.
  - split; [intros _; now exists s | reflexivity].
  - destruct s as [|y s].
    + split; [discriminate | intros [r H]; discriminate].
    + rewrite andb_true_iff, N.eqb_eq, IH. split.
      * intros [-> [r ->]]. now exists r.
      * intros [r H]. injection H as -> ->. split; [reflexivity | now exists r].
Qed.

Lemma span_spec f s a b :
  span f s = (a, b) ->
  s = a ++ b /\ Forall (fun c => f c = true) a /\
  match b with [] => True | c :: _ => f c = false end.
Proof.
  revert a b; induction s as [|c s IH]; simpl; intros a b H.
  - injection H as <- <-. repeat split; constructor.
  - destruct (f c) eqn:E.
    + destruct (span f s) as [a' b'] eqn:E'. injection H as <- <-.
      destruct (IH _ _ eq_refl) as (-> & Ha & Hb).
      repeat split; [constructor; assumption | assumption].
    + injection H as <- <-. simpl. repeat split; [constructor | assumption].
Qed.

End JS.

Import JS.

(* ===================================================================== *)
(** ** URL locator: [findUrlInBlock] *)
(* ===================================================================== *)

Module UrlLocator.

(** An inline content item. [t] is the item kind (["a"] for a link), [url]
    the link target when the field is present, [v] the text when the field
    is a string. *)
Record ContentItem := mkItem {
  t : jsstring;
  url : option jsstring;
  v : option jsstring
}.

(** A block; [content] is [None] when the field is missing. *)
Record Block := mkBlock { content : option (list ContentItem) }.

Definition notSpace (c : N) : bool := negb (isWhiteSpace c).

(** One attempt of [/https?:\/\/[^\s]+/] at the head of [s] with the given
    scheme: the scheme, then the longest non-empty run of [[^\s]]. *)
Definition match_scheme (scheme s : jsstring) : option jsstring :=
  if startsWith scheme s then
    match fst (span notSpace (skipn (List.length scheme) s)) with
    | [] => None
    | run => Some (scheme ++ run)
    end
  else None.

(** The regular expression anchored at the head of [s]: the greedy [s?]
    is tried first, then given back. *)
Definition match_here (s : jsstring) : option jsstring :=
  match match_scheme (js "https://") s with
  | Some m => Some m
  | None => match_scheme (js "http://") s
  end.

(** [s.match(/https?:\/\/[^\s]+/)]: the leftmost match, [match[0]]. *)
Fixpoint match_url (s : jsstring) : option jsstring :=
  match match_here s with
  | Some m => Some m
  | None =>
      match s with
      | [] => None
      | _ :: s' => match_url s'
      end
  end.

(** The [for ... of block.content] loop. *)
Fixpoint scan (items : list ContentItem) : jsstring :=
  match items with
  | [] => []
  | item :: rest =>
      match (if jseqb (t item) (js "a") then url item else None) with
      | Some (c :: u) => c :: u
      | _ =>
          match v item with
          | Some text =>
              if includes (js "http") text then
                match match_url text with
                | Some m => m
                | None => scan rest
                end
              else scan rest
          | None => scan rest
          end
      end
  end.

Definition findUrlInBlock (block : option Block) : jsstring :=
  match block with
  | None => []
  | Some b =>
      match content b with
      | None => []
      | Some items => scan items
      end
  end.

(** *** What the claim speaks of *)

(** [m] is a URL of the pattern standing at the head of [s]: a scheme, a
    non-empty run without white space, and the run cannot be extended. *)
Definition UrlAtHead (s m : jsstring) : Prop :=
  exists scheme run post,
    (scheme = js "http://" \/ scheme = js "https://") /\
    m = scheme ++ run /\ s = m ++ post /\
    run <> [] /\ Forall (fun c => isWhiteSpace c = false) run /\
    match post with [] => True | c :: _ => isWhiteSpace c = true end.

(** [m] is the leftmost URL of the pattern inside [s]. *)
Definition FirstUrlIn (s m : jsstring) : Prop :=
  exists pre rest,
    s = pre ++ rest /\ UrlAtHead rest m /\
    forall k m', k < List.length pre -> ~ UrlAtHead (skipn k s) m'.

Definition NoUrlIn (s : jsstring) : Prop :=
  forall k m', ~ UrlAtHead (skipn k s) m'.

(** The item is an explicit link to [u]. *)
Definition LinkUrl (item : ContentItem) (u : jsstring) : Prop :=
  t item = js "a" /\ url item = Some u /\ u <> [].

(** The item is no explicit link and its text holds [u] as first URL. *)
Definition TextUrl (item : ContentItem) (u : jsstring) : Prop :=
  (forall u', ~ LinkUrl item u') /\
  exists text, v item = Some text /\ FirstUrlIn text u.

Definition ItemUrl (item : ContentItem) (u : jsstring) : Prop :=
  LinkUrl item u \/ TextUrl item u.

Definition NoUrl (item : ContentItem) : Prop := forall u, ~ ItemUrl item u.

Definition contentOf (block : option Block) : list ContentItem :=
  match block with
  | Some b => match content b with Some items => items | None => [] end
  | None => []
  end.

(** *** The regular expression *)

Lemma match_scheme_some scheme s m :
  match_scheme scheme s = Some m ->
  exists run post,
    m = scheme ++ run /\ s = m ++ post /\ run <> [] /\
    Forall (fun c => isWhiteSpace c = false) run /\
    match post with [] => True | c :: _ => isWhiteSpace c = true end.
Proof.
  unfold match_scheme. destruct (startsWith scheme s) eqn:E; [|discriminate].
  apply startsWith_app in E as [r ->].
  rewrite skipn_app, skipn_all, Nat.sub_diag. simpl.
  destruct (span notSpace r) as [a b] eqn:Es. simpl.
  destruct (span_spec _ _ Es) as (-> & Ha & Hb).
  destruct a as [|c a]; [discriminate|]. intros H. injection H as <-.
  exists (c :: a), b. rewrite <- app_assoc. repeat split; try discriminate.
  - eapply Forall_impl; [|exact Ha]. unfold notSpace. intros x Hx.
    now apply negb_true_iff in Hx.
  - destruct b; [exact I|]. unfold notSpace in Hb. now apply negb_false_iff in Hb.
Qed.

Lemma match_scheme_none scheme s c rest :
  s = scheme ++ c :: rest -> isWhiteSpace c = false ->
  match_scheme scheme s <> None.
Proof.
  intros -> Hc. unfold match_scheme.
  replace (startsWith scheme (scheme ++ c :: rest)) with true
    by (symmetry; apply startsWith_app; eauto).
  rewrite skipn_app, skipn_all, Nat.sub_diag. simpl.
  unfold notSpace at 1. rewrite Hc. simpl.
  destruct (span notSpace rest). simpl. discriminate.
Qed.

Lemma match_here_some s m : match_here s = Some m -> UrlAtHead s m.
Proof.
  unfold match_here. intros H.
  destruct (match_scheme (js "https://") s) as [m1|] eqn:E1.
  - injection H as ->. apply match_scheme_some in E1 as (run & post & H).
    exists (js "https://"), run, post. intuition.
  - apply match_scheme_some in H as (run & post & H).
    exists (js "http://"), run, post. intuition.
Qed.

Lemma match_here_none s : match_here s = None -> forall m, ~ UrlAtHead s m.
Proof.
  unfold match_here. intros H m (scheme & run & post & Hs & -> & -> & Hne & Hall & _).
  destruct run as [|c run]; [congruence|].
  inversion Hall as [|? ? Hc _]; subst.
  destruct Hs as [-> | ->].
  - destruct (match_scheme (js "https://") _) eqn:E1; [discriminate|].
    revert H. eapply match_scheme_none; [|exact Hc].
    rewrite <- app_assoc. reflexivity.
  - destruct (match_scheme (js "https://") _) eqn:E1; [discriminate|].
    revert E1. eapply match_scheme_none; [|exact Hc].
    rewrite <- app_assoc. reflexivity.
Qed.

Lemma match_url_some s m : match_url s = Some m -> FirstUrlIn s m.
Proof.
  induction s as [|c s IH]; simpl.
  - intros H. exfalso. revert H. vm_compute. discriminate.
  - destruct (match_here (c :: s)) eqn:E.
    + intros H; injection H as ->. exists [], (c :: s). repeat split.
      * now apply match_here_some.
      * simpl; lia.
    + intros H. destruct (IH H) as (pre & rest & -> & Hu & Hleft).
      exists (c :: pre), rest. repeat split; [assumption|].
      intros [|k] m' Hk; simpl.
      * now apply match_here_none.
      * apply Hleft. simpl in Hk. lia.
Qed.

Lemma match_url_none s : match_url s = None -> NoUrlIn s.
Proof.
  induction s as [|c s IH]; simpl.
  - intros _ k m'. rewrite skipn_nil. now apply match_here_none.
  - destruct (match_here (c :: s)) eqn:E; [discriminate|]. intros H [|k] m'; simpl.
    + now apply match_here_none.
    + now apply IH.
Qed.

Lemma includes_skipn p s k : startsWith p (skipn k s) = true -> includes p s = true.
Proof.
  revert s; induction k as [|k IH]; intros s H.
  - simpl in H. destruct s; simpl; rewrite H; reflexivity.
  - destruct s as [|c s].
    + simpl in H. simpl. rewrite H. reflexivity.
    + simpl in H. simpl. rewrite (IH _ H). apply orb_true_r.
Qed.

Lemma no_http_no_url s : includes (js "http") s = false -> NoUrlIn s.
Proof.
  intros H k m' (scheme & run & post & Hs & -> & E & _).
  assert (startsWith (js "http") (skipn k s) = true) as Hp.
  { rewrite E. apply startsWith_app.
    destruct Hs as [-> | ->]; simpl; eexists; reflexivity. }
  apply includes_skipn in Hp. congruence.
Qed.

Lemma FirstUrlIn_not_NoUrlIn s m : FirstUrlIn s m -> NoUrlIn s -> False.
Proof.
  intros (pre & rest & -> & Hu & _) Hno.
  apply (Hno (List.length pre) m).
  rewrite skipn_app, skipn_all, Nat.sub_diag. exact Hu.
Qed.

Lemma FirstUrlIn_nonempty s m : FirstUrlIn s m -> m <> [].
Proof.
  intros (pre & rest & _ & (scheme & run & post & Hs & -> & _) & _).
  destruct Hs as [-> | ->]; discriminate.
Qed.

(** *** The loop *)

Lemma text_step item (r : jsstring) :
  (forall u, ~ LinkUrl item u) ->
  let res :=
    match v item with
    | Some text =>
        if includes (js "http") text then
          match match_url text with
          | Some m => m
          | None => r
          end
        else r
    | None => r
    end in
  (ItemUrl item res /\ res <> []) \/ (NoUrl item /\ res = r).
Proof.
  intros Hnl. cbv zeta.
  assert (forall text, v item = Some text -> NoUrlIn text -> NoUrl item) as Hno.
  { intros text Ev Hn u [Hl | [_ (tx & Htx & Hf)]].
    - exact (Hnl _ Hl).
    - rewrite Ev in Htx. injection Htx as <-.
      exact (FirstUrlIn_not_NoUrlIn Hf Hn). }
  destruct (v item) as [text|] eqn:Ev.
  - destruct (includes (js "http") text) eqn:Ei.
    + destruct (match_url text) as [m|] eqn:Em.
      * left. apply match_url_some in Em. split.
        -- right. split; [exact Hnl|]. exists text; split; [exact Ev | exact Em].
        -- now apply FirstUrlIn_nonempty in Em.
      * right. split; [|reflexivity].
        apply (Hno text eq_refl). now apply match_url_none.
    + right. split; [|reflexivity].
      apply (Hno text eq_refl). now apply no_http_no_url.
  - right. split; [|reflexivity]. intros u [Hl | [_ (tx & Htx & _)]].
    + exact (Hnl _ Hl).
    + congruence.
Qed.

Lemma scan_unfold item rest :
  scan (item :: rest) =
  match (if jseqb (t item) (js "a") then url item else None) with
  | Some (c :: u) => c :: u
  | _ =>
      match v item with
      | Some text =>
          if includes (js "http") text then
            match match_url text with
            | Some m => m
            | None => scan rest
            end
          else scan rest
      | None => scan rest
      end
  end.
Proof. reflexivity. Qed.

Lemma scan_cons item rest :
  (ItemUrl item (scan (item :: rest)) /\ scan (item :: rest) <> [])
  \/ (NoUrl item /\ scan (item :: rest) = scan rest).
Proof.
  rewrite scan_unfold.
  destruct (jseqb (t item) (js "a")) eqn:Et.
  - destruct (url item) as [[|c u]|] eqn:Eu.
    + apply text_step. intros u (_ & Hu & Hne). congruence.
    + left. split; [|discriminate]. left. apply jseqb_eq in Et.
      repeat split; [exact Et | exact Eu | discriminate].
    + apply text_step. intros u (_ & Hu & _). congruence.
  - apply text_step. intros u (Ht & _). apply jseqb_eq in Ht. congruence.
Qed.

Lemma scan_spec items :
  (exists pre item post,
     items = pre ++ item :: post /\ Forall NoUrl pre /\
     ItemUrl item (scan items) /\ scan items <> [])
  \/ (Forall NoUrl items /\ scan items = []).
Proof.
  induction items as [|item rest IH].
  - right. split; [constructor | reflexivity].
  - destruct (scan_cons item rest) as [[Hu Hne] | [Hno Heq]].
    + left. exists [], item, rest. repeat split; [constructor | exact Hu | exact Hne].
    + rewrite Heq. destruct IH as [(pre & it & post & -> & Hpre & Hu & Hne) | [Hall Hnil]].
      * left. exists (item :: pre), it, post.
        repeat split; [constructor; assumption | exact Hu | exact Hne].
      * right. split; [constructor; assumption | exact Hnil].
Qed.

(** C4, as the code has it. [findUrlInBlock] returns the first URL of
    the block's ordered content: the items before the one that yields it
    hold no URL, and that item yields it either as an explicit link
    ([t = "a"] with a non-empty [url]) or, when it is no such link, as the
    leftmost match of [https?://[^\s]+] in its text.  The link is
    preferred to the text of the same item only; between items the order
    of the content decides.  When no item holds a URL (also when the
    block or its content is missing) the result is the empty string. *)
Theorem findUrlInBlock_first_url (block : option Block) :
  (exists pre item post,
     contentOf block = pre ++ item :: post /\ Forall NoUrl pre /\
     ItemUrl item (findUrlInBlock block) /\ findUrlInBlock block <> [])
  \/ (Forall NoUrl (contentOf block) /\ findUrlInBlock block = []).
Proof.
  destruct block as [[[items|]]|]; simpl.
  - apply scan_spec.
  - right. split; [constructor | reflexivity].
  - right. split; [constructor | reflexivity].
Qed.

(** The link of the spec's example block is found. *)
Example findUrlInBlock_douban :
  findUrlInBlock
    (Some (mkBlock (Some [mkItem (js "a")
       (Some (js "https://book.douban.com/subject/1234567/")) None])))
  = js "https://book.douban.com/subject/1234567/".
Proof. reflexivity. Qed.

(** The order of the items decides, not their kind: a URL in an earlier
    text item is returned although a link item follows. *)
Example findUrlInBlock_text_before_link :
  findUrlInBlock
    (Some (mkBlock (Some
       [mkItem (js "t") None (Some (js "see http://a.example/x now"));
        mkItem (js "a") (Some (js "https://b.example/")) None])))
  = js "http://a.example/x".
Proof. reflexivity. Qed.

(** C4 as stated fails: the block holds an explicit link item, and the
    URL returned is the one found in the plain-text item that stands
    before it, not the link's. *)
Lemma findUrlInBlock_text_item_first :
  LinkUrl (mkItem (js "a") (Some (js "https://b.example/")) None)
          (js "https://b.example/") /\
  TextUrl (mkItem (js "t") None (Some (js "see http://a.example/x now")))
          (js "http://a.example/x") /\
  findUrlInBlock
    (Some (mkBlock (Some
       [mkItem (js "t") None (Some (js "see http://a.example/x now"));
        mkItem (js "a") (Some (js "https://b.example/")) None])))
  = js "http://a.example/x".
Proof.
  split; [|split; [|reflexivity]].
  - repeat split. discriminate.
  - split.
    + intros u (Ht & _). discriminate Ht.
    + eexists. split; [reflexivity|]. now apply match_url_some.
Qed.

(** Within one item the explicit link wins over its text. *)
Example findUrlInBlock_link_over_text :
  findUrlInBlock
    (Some (mkBlock (Some
       [mkItem (js "a") (Some (js "https://b.example/"))
               (Some (js "http://a.example/x"))])))
  = js "https://b.example/".
Proof. reflexivity. Qed.

End UrlLocator.

(* ===================================================================== *)
(** ** Exceptions *)
(* ===================================================================== *)

(** A thrown [Error] with its [message]. *)
Inductive exn := Error (message : jsstring).

(** The outcome of a computation that may throw. *)
Inductive result (A : Type) :=
| Ok (a : A)
| Throw (e : exn).

Arguments Ok {A} a.
Arguments Throw {A} e.

Definition bind {A B} (m : result A) (k : A -> result B) : result B :=
  match m with
  | Ok a => k a
  | Throw e => Throw e
  end.

(** [try { body } catch (e) { handler }] *)
Definition try_catch {A} (body : result A) (handler : exn -> result A) : result A :=
  match body with
  | Ok a => Ok a
  | Throw e => handler e
  end.

(* ===================================================================== *)
(** ** A fragment of the host's regular expressions *)
(* ===================================================================== *)

(** The engine on the patterns made of ASCII literal characters, [.],
    escaped syntax characters and the quantifiers [*], [+], [?] (greedy
    or lazy), with flags among [d g i m s y].  On these it answers as
    [RegExp] does: a quantifier with nothing to repeat, a trailing
    backslash, an unknown or repeated flag are syntax errors.  Anything
    else (groups, classes, anchors, class escapes, flags [u] and [v]) is
    outside the fragment and refused; it serves to run the matcher on
    concrete rules, the general statements hold for every engine. *)
Module RegExpFragment.

Inductive atom := Lit (c : N) | Dot.
Inductive quant := One | Opt | Star | Plus.

Record flagset := mkFlags { ignoreCase : bool; dotAll : bool; sticky : bool }.
Record regex := mkRegex { items : list (atom * quant); flags : flagset }.

Definition mem (c : N) (s : jsstring) : bool := existsb (N.eqb c) s.

(** SyntaxCharacter of the pattern grammar. *)
Definition isSyntaxChar (c : N) : bool := mem c (js "^$\.*+?()[]{}|").

Definition parse_atom (s : jsstring) : result (atom * jsstring) :=
  match s with
  | [] => Throw (Error (js "empty atom"))
  | c :: s' =>
      if (c =? 92)%N then
        match s' with
        | [] => Throw (Error (js "\ at end of pattern"))
        | e :: s'' =>
            if isSyntaxChar e || (e =? 47)%N then Ok (Lit e, s'')
            else Throw (Error (js "escape outside the fragment"))
        end
      else if (c =? 46)%N then Ok (Dot, s')
      else if mem c (js "*+?") then Throw (Error (js "Nothing to repeat"))
      else if isSyntaxChar c || (128 <=? c)%N then
        Throw (Error (js "pattern outside the fragment"))
      else Ok (Lit c, s')
  end.

Definition skip_lazy (s : jsstring) : jsstring :=
  match s with
  | c :: s' => if (c =? 63)%N then s' else s
  | [] => []
  end.

Definition parse_quant (s : jsstring) : quant * jsstring :=
  match s with
  | c :: s' =>
      if (c =? 42)%N then (Star, skip_lazy s')
      else if (c =? 43)%N then (Plus, skip_lazy s')
      else if (c =? 63)%N then (Opt, skip_lazy s')
      else (One, s)
  | [] => (One, [])
  end.

(** Every round consumes a code unit: the length of the pattern is fuel
    enough. *)
Fixpoint parse_items (fuel : nat) (s : jsstring) : result (list (atom * quant)) :=
  match s with
  | [] => Ok []
  | _ :: _ =>
      match fuel with
      | O => Throw (Error (js "out of fuel"))
      | S fuel' =>
          bind (parse_atom s) (fun '(a, s1) =>
          let (q, s2) := parse_quant s1 in
          bind (parse_items fuel' s2) (fun l => Ok ((a, q) :: l)))
      end
  end.

Fixpoint parse_flags (s seen : jsstring) (fl : flagset) : result flagset :=
  match s with
  | [] => Ok fl
  | c :: s' =>
      if mem c seen then Throw (Error (js "Invalid flags"))
      else if (c =? 105)%N then
        parse_flags s' (c :: seen) (mkFlags true (dotAll fl) (sticky fl))
      else if (c =? 115)%N then
        parse_flags s' (c :: seen) (mkFlags (ignoreCase fl) true (sticky fl))
      else if (c =? 121)%N then
        parse_flags s' (c :: seen) (mkFlags (ignoreCase fl) (dotAll fl) true)
      else if mem c (js "dgm") then parse_flags s' (c :: seen) fl
      else if mem c (js "uv") then Throw (Error (js "flags outside the fragment"))
      else Throw (Error (js "Invalid flags"))
  end.

Definition RegExp_new (pattern flags : jsstring) : result regex :=
  bind (parse_flags flags [] (mkFlags false false false)) (fun fl =>
  bind (parse_items (List.length pattern) pattern) (fun l =>
  Ok (mkRegex l fl))).

(** Canonicalize of the [i] flag, on ASCII. *)
Definition canon (fl : flagset) (c : N) : N :=
  if ignoreCase fl && (97 <=? c)%N && (c <=? 122)%N then (c - 32)%N else c.

Definition atom_ok (fl : flagset) (a : atom) (c : N) : bool :=
  match a with
  | Lit p => (canon fl p =? canon fl c)%N
  | Dot => dotAll fl || negb (isLineTerminator c)
  end.

(** Does the sequence match a prefix of [s]? *)
Fixpoint match_items (fl : flagset) (l : list (atom * quant)) (s : jsstring) : bool :=
  match l with
  | [] => true
  | (a, q) :: l' =>
      let one (k : jsstring -> bool) (s : jsstring) :=
        match s with
        | c :: s' => atom_ok fl a c && k s'
        | [] => false
        end in
      let star :=
        fix star (s : jsstring) : bool :=
          match_items fl l' s ||
          match s with
          | c :: s' => atom_ok fl a c && star s'
          | [] => false
          end in
      match q with
      | One => one (match_items fl l') s
      | Opt => one (match_items fl l') s || match_items fl l' s
      | Star => star s
      | Plus => one star s
      end
  end.

Fixpoint search (fl : flagset) (l : list (atom * quant)) (s : jsstring) : bool :=
  match_items fl l s ||
  match s with
  | _ :: s' => search fl l s'
  | [] => false
  end.

(** [regex.test(s)] with [lastIndex = 0]: anywhere, or at the start only
    under the sticky flag. *)
Definition RegExp_test (r : regex) (s : jsstring) : bool :=
  if sticky (flags r) then match_items (flags r) (items r) s
  else search (flags r) (items r) s.

Example new_dot_star :
  RegExp_new (js ".*") (js "i") = Ok (mkRegex [(Dot, Star)] (mkFlags true false false)).
Proof. reflexivity. Qed.

Example new_nothing_to_repeat :
  RegExp_new (js "*.douban.com") (js "i") = Throw (Error (js "Nothing to repeat")).
Proof. reflexivity. Qed.

Example new_invalid_flags :
  RegExp_new (js "douban") (js "ii") = Throw (Error (js "Invalid flags")).
Proof. reflexivity. Qed.

Lemma test_dot_star fl s : RegExp_test (mkRegex [(Dot, Star)] fl) s = true.
Proof.
  unfold RegExp_test. simpl.
  destruct (sticky fl); destruct s; reflexivity.
Qed.

End RegExpFragment.

(* ===================================================================== *)
(** ** Rule matcher: [matchRule] *)
(* ===================================================================== *)

Module RuleMatcher.

Record Rule := mkRule {
  name : jsstring;
  enabled : bool;
  urlPattern : jsstring;
  tagName : jsstring;
  downloadCover : bool;
  script : list jsstring
}.

Definition slash : N := 47.

Section Engine.

(** The host's regular expressions: [new RegExp(pattern, flags)], which
    throws a SyntaxError on a pattern or flags it cannot compile, and
    [regex.test(s)] on a freshly built expression. *)
Variable RegExp : Type.
Variable RegExp_new : jsstring -> jsstring -> result RegExp.
Variable RegExp_test : RegExp -> jsstring -> bool.

(** The expression built from a trimmed [urlPattern]: the [/body/flags]
    form when a second slash exists, the whole string with flag [i]
    otherwise. *)
Definition compilePattern (pattern : jsstring) : result RegExp :=
  if startsWith [slash] pattern && (lastIndexOf slash pattern >? 0)%Z then
    let lastSlashIndex := lastIndexOf slash pattern in
    let regexPattern := substring 1 lastSlashIndex pattern in
    let flags := skipn (Z.to_nat (lastSlashIndex + 1)) pattern in
    RegExp_new regexPattern flags
  else
    RegExp_new pattern (js "i").

(** The callback of [rules.find]. *)
Definition ruleCallback (url : jsstring) (rule : Rule) : result bool :=
  if negb (enabled rule) then Ok false
  else
    try_catch
      (bind (compilePattern (trim (urlPattern rule)))
            (fun regex => Ok (RegExp_test regex url)))
      (fun _ => Ok false).

(** [Array.prototype.find] with a callback that may throw. *)
Fixpoint find_result (f : Rule -> result bool) (rules : list Rule)
  : result (option Rule) :=
  match rules with
  | [] => Ok None
  | rule :: rest =>
      bind (f rule) (fun hit => if hit then Ok (Some rule) else find_result f rest)
  end.

Definition matchRule (url : jsstring) (rules : list Rule) : result (option Rule) :=
  find_result (ruleCallback url) rules.

(** The rule is enabled and its compiled pattern matches the URL. *)
Definition Matches (url : jsstring) (rule : Rule) : Prop :=
  enabled rule = true /\
  exists regex,
    compilePattern (trim (urlPattern rule)) = Ok regex /\
    RegExp_test regex url = true.

(** *** The callback never throws *)

Lemma ruleCallback_total url rule :
  ruleCallback url rule =
  Ok (enabled rule &&
      match compilePattern (trim (urlPattern rule)) with
      | Ok regex => RegExp_test regex url
      | Throw _ => false
      end).
Proof.
  unfold ruleCallback. destruct (enabled rule); simpl; [|reflexivity].
  destruct (compilePattern (trim (urlPattern rule))); reflexivity.
Qed.

Lemma ruleCallback_true url rule :
  ruleCallback url rule = Ok true <-> Matches url rule.
Proof.
  rewrite ruleCallback_total. unfold Matches. split.
  - intros H. injection H as H. apply andb_true_iff in H as [He H].
    split; [exact He|].
    destruct (compilePattern (trim (urlPattern rule))) as [regex|]; [|discriminate].
    now exists regex.
  - intros [-> (regex & -> & ->)]. reflexivity.
Qed.

Lemma ruleCallback_false url rule :
  ruleCallback url rule = Ok false <-> ~ Matches url rule.
Proof.
  split.
  - intros H M. apply ruleCallback_true in M. congruence.
  - intros H. rewrite ruleCallback_total in *. f_equal.
    destruct (_ && _) eqn:E; [|reflexivity].
    exfalso. apply H. apply ruleCallback_true. rewrite ruleCallback_total.
    now rewrite E.
Qed.

(** [matchRule] is [find] over a callback that always returns. *)
Lemma matchRule_find url rules :
  matchRule url rules
  = Ok (find (fun rule =>
               match ruleCallback url rule with Ok b => b | Throw _ => false end)
             rules).
Proof.
  unfold matchRule. induction rules as [|rule rest IH]; simpl; [reflexivity|].
  rewrite ruleCallback_total. simpl.
  destruct (_ && _); [reflexivity | exact IH].
Qed.

(** First match wins: the result splits the list at the first rule that
    matches. *)
Lemma matchRule_first url rules :
  (exists pre rule post,
     matchRule url rules = Ok (Some rule) /\ rules = pre ++ rule :: post /\
     Matches url rule /\ Forall (fun r => ~ Matches url r) pre)
  \/ (matchRule url rules = Ok None /\ Forall (fun r => ~ Matches url r) rules).
Proof.
  unfold matchRule. induction rules as [|rule rest IH]; simpl.
  - right. split; [reflexivity | constructor].
  - destruct (ruleCallback url rule) as [[|]|e] eqn:E.
    + left. exists [], rule, rest. simpl.
      split; [reflexivity | split; [reflexivity | split; [|constructor]]].
      now apply ruleCallback_true.
    + apply ruleCallback_false in E. simpl.
      destruct IH as [(pre & r & post & Hm & -> & HM & Hpre) | [Hm Hall]].
      * left. exists (rule :: pre), r, post.
        split; [assumption | split; [reflexivity | split; [assumption|]]].
        now constructor.
      * right. split; [assumption | now constructor].
    + rewrite ruleCallback_total in E. discriminate.
Qed.

Lemma matchRule_skip url pre rule post :
  ~ Matches url rule ->
  matchRule url (pre ++ rule :: post) = matchRule url (pre ++ post).
Proof.
  intros H. unfold matchRule. induction pre as [|r pre IH]; simpl.
  - apply ruleCallback_false in H. rewrite H. reflexivity.
  - rewrite IH. reflexivity.
Qed.

Lemma compilePattern_plain p :
  startsWith [slash] p && (lastIndexOf slash p >? 0)%Z = false ->
  compilePattern p = RegExp_new p (js "i").
Proof. unfold compilePattern. intros ->. reflexivity. Qed.

Lemma matchRule_first_match url pre rule post :
  Forall (fun r => ~ Matches url r) pre -> Matches url rule ->
  matchRule url (pre ++ rule :: post) = Ok (Some rule).
Proof.
  intros Hpre HM. unfold matchRule.
  induction Hpre as [|r pre Hr _ IH]; simpl.
  - apply ruleCallback_true in HM. now rewrite HM.
  - apply ruleCallback_false in Hr. rewrite Hr. exact IH.
Qed.

(** C5, as the code has it. [matchRule] never throws; a rule whose
    pattern the engine refuses to compile makes the callback answer
    [false], is skipped wherever it stands in the list and is never the
    rule returned.  A pattern that begins with a slash and has no later
    slash is not taken as a literal: it is compiled whole, as a plain
    pattern with flag [i]; when that compiles and the result matches the
    URL, its rule, if enabled and behind no rule that matches, is the
    rule returned. *)
Theorem matchRule_skips_uncompilable (url : jsstring) (rules : list Rule) :
  (exists o, matchRule url rules = Ok o) /\
  (forall rule e,
     compilePattern (trim (urlPattern rule)) = Throw e ->
     ruleCallback url rule = Ok false /\
     forall pre post,
       matchRule url (pre ++ rule :: post) = matchRule url (pre ++ post)) /\
  (forall rule,
     matchRule url rules = Ok (Some rule) ->
     exists regex, compilePattern (trim (urlPattern rule)) = Ok regex) /\
  (forall p,
     startsWith [slash] p = true -> lastIndexOf slash p = 0%Z ->
     compilePattern p = RegExp_new p (js "i")) /\
  (forall pre rule post regex,
     startsWith [slash] (trim (urlPattern rule)) = true ->
     lastIndexOf slash (trim (urlPattern rule)) = 0%Z ->
     RegExp_new (trim (urlPattern rule)) (js "i") = Ok regex ->
     RegExp_test regex url = true ->
     enabled rule = true ->
     Forall (fun r => ~ Matches url r) pre ->
     matchRule url (pre ++ rule :: post) = Ok (Some rule)).
Proof.
  assert (forall p,
            startsWith [slash] p = true -> lastIndexOf slash p = 0%Z ->
            compilePattern p = RegExp_new p (js "i")) as Hplain.
  { intros p _ H0. apply compilePattern_plain. rewrite H0. apply andb_false_r. }
  split; [|split; [|split; [|split]]].
  - rewrite matchRule_find. eexists. reflexivity.
  - intros rule e He.
    assert (~ Matches url rule) as Hn.
    { intros [_ (regex & Hr & _)]. congruence. }
    split; [now apply ruleCallback_false|].
    intros pre post. now apply matchRule_skip.
  - intros rule H.
    destruct (matchRule_first url rules)
      as [(pre & r & post & Hm & _ & [_ (regex & Hr & _)] & _) | [Hm _]].
    + rewrite Hm in H. injection H as <-. now exists regex.
    + congruence.
  - exact Hplain.
  - intros pre rule post regex Hs H0 Hnew Htest He Hpre.
    apply matchRule_first_match; [exact Hpre|].
    split; [exact He|]. exists regex. split; [|exact Htest].
    now rewrite Hplain.
Qed.

(** C6. With a last rule [R] that is enabled and has [urlPattern = ".*"],
    on an engine where [.*] compiles and matches every string,
    [matchRule] returns a rule for every URL, and the rule returned is
    the first one in list order that is enabled and whose compiled
    pattern matches the URL. *)
Theorem matchRule_fallback (url : jsstring) (rules : list Rule) (R : Rule) :
  (exists regex,
     RegExp_new (js ".*") (js "i") = Ok regex /\
     forall s, RegExp_test regex s = true) ->
  urlPattern R = js ".*" -> enabled R = true ->
  exists pre rule post,
    matchRule url (rules ++ [R]) = Ok (Some rule) /\
    rules ++ [R] = pre ++ rule :: post /\
    Matches url rule /\ Forall (fun r => ~ Matches url r) pre.
Proof.
  intros (regex & Hnew & Htest) Hp He.
  destruct (matchRule_first url (rules ++ [R])) as [H | [_ Hall]]; [exact H|].
  exfalso. apply Forall_app in Hall as [_ HR].
  inversion HR as [|? ? HnR _]; subst. apply HnR.
  split; [exact He|]. exists regex. rewrite Hp. split; [exact Hnew | apply Htest].
Qed.

End Engine.

(** *** The matcher on the fragment engine *)

Definition fragmentMatchRule : jsstring -> list Rule -> result (option Rule) :=
  matchRule RegExpFragment.RegExp_new RegExpFragment.RegExp_test.

Definition doubanRule : Rule :=
  mkRule (js "Douban Book") true (js "/book\.douban\.com\/subject\//i")
         (js "Book") true [].

Definition genericRule : Rule :=
  mkRule (js "Generic") true (js ".*") (js "Bookmark") false [].

(** A rule whose pattern opens a [/] literal and never closes it. *)
Definition unterminatedRule : Rule :=
  mkRule (js "Unterminated") true (js "/subject") (js "Book") false [].

(** A rule whose pattern the engine refuses: nothing to repeat. *)
Definition brokenRule : Rule :=
  mkRule (js "Broken") true (js "*.douban.com") (js "Book") false [].

Definition doubanUrl : jsstring := js "https://book.douban.com/subject/1234567/".

Example matchRule_douban_first :
  fragmentMatchRule doubanUrl [doubanRule; genericRule] = Ok (Some doubanRule).
Proof. reflexivity. Qed.

Example matchRule_broken_skipped :
  fragmentMatchRule doubanUrl [brokenRule; genericRule] = Ok (Some genericRule).
Proof. reflexivity. Qed.

Example matchRule_case_insensitive :
  fragmentMatchRule (js "HTTPS://BOOK.DOUBAN.COM/SUBJECT/1/") [doubanRule]
  = Ok (Some doubanRule).
Proof. reflexivity. Qed.

(** C5 as stated fails: the unterminated [/] literal is compiled as the
    plain pattern [/subject], matches the URL and the rule is selected. *)
Lemma matchRule_unterminated_selected :
  compilePattern RegExpFragment.RegExp_new (trim (urlPattern unterminatedRule))
  = RegExpFragment.RegExp_new (js "/subject") (js "i") /\
  fragmentMatchRule doubanUrl [unterminatedRule; genericRule]
  = Ok (Some unterminatedRule).
Proof. split; reflexivity. Qed.

Lemma matchRule_fallback_witness :
  exists pre rule post,
    matchRule RegExpFragment.RegExp_new RegExpFragment.RegExp_test
      doubanUrl ([brokenRule; doubanRule] ++ [genericRule]) = Ok (Some rule) /\
    [brokenRule; doubanRule] ++ [genericRule] = pre ++ rule :: post /\
    Matches RegExpFragment.RegExp_new RegExpFragment.RegExp_test doubanUrl rule /\
    Forall (fun r => ~ Matches RegExpFragment.RegExp_new
                       RegExpFragment.RegExp_test doubanUrl r) pre.
Proof.
  apply (@matchRule_fallback _ RegExpFragment.RegExp_new RegExpFragment.RegExp_test
           doubanUrl [brokenRule; doubanRule] genericRule).
  - eexists. split; [reflexivity | intros s; apply RegExpFragment.test_dot_star].
  - reflexivity.
  - reflexivity.
Defined.

End RuleMatcher.

(* ===================================================================== *)
(** ** Properties *)
(* ===================================================================== *)

Module Model.

(** [PropType], the closed enumeration [0..6]. *)
Inductive PropType :=
| JSON | Text | BlockRefs | Number | Boolean | DateTime | TextChoices.

Definition PropType_code (ty : PropType) : N :=
  match ty with
  | JSON => 0 | Text => 1 | BlockRefs => 2 | Number => 3
  | Boolean => 4 | DateTime => 5 | TextChoices => 6
  end.

Definition PropType_eqb (a b : PropType) : bool :=
  (PropType_code a =? PropType_code b)%N.

(** The values a property carries: primitives, a [Date] by its time value
    in milliseconds, and an array of strings (the shape of a TextChoices
    value). *)
Inductive jsvalue :=
| VUndefined
| VNull
| VBoolean (b : bool)
| VNumber (x : spec_float)
| VString (s : jsstring)
| VDate (time : Z)
| VArray (l : list jsstring).

(** A choice of a TextChoices property, [{ n, c }]: name and colour. *)
Record Choice := mkChoice { n : jsstring; c : jsstring }.

(** [typeArgs]: [subType] and [choices] when present, and the further
    fields of the object (string-valued) in [others]. *)
Record TypeArgs := mkTypeArgs {
  subType : option jsstring;
  choices : option (list Choice);
  others : list (jsstring * jsstring)
}.

Definition emptyTypeArgs : TypeArgs := mkTypeArgs None None [].

(** [{ name, type, value, typeArgs }]; [typeArgs] is [None] when
    undefined. *)
Record Property := mkProperty {
  name : jsstring;
  type : PropType;
  value : jsvalue;
  typeArgs : option TypeArgs
}.

(** A property definition of a tag schema, and a staged change:
    [{ name, type, typeArgs }]. *)
Record PropDef := mkPropDef {
  def_name : jsstring;
  def_type : PropType;
  def_typeArgs : option TypeArgs
}.

(** [typeArgs?.subType === s] *)
Definition subTypeIs (s : jsstring) (ta : option TypeArgs) : bool :=
  match ta with
  | Some a => match subType a with Some t => jseqb t s | None => false end
  | None => false
  end.

Lemma PropType_eqb_eq a b : PropType_eqb a b = true <-> a = b.
Proof. destruct a, b; split; intros H; try reflexivity; discriminate. Qed.

End Model.

Import Model.

(* ===================================================================== *)
(** ** Property normalizer: the formatter of [applyMetadataToBlock] *)
(* ===================================================================== *)

Module Normalizer.

Section Host.

(** [new Date(s).getTime()], [None] for NaN; [parseFloat]; and
    [String.prototype.toLowerCase]. *)
Variable parseDate : jsstring -> option Z.
Variable parseFloat : jsstring -> spec_float.
Variable toLowerCase : jsstring -> jsstring.

(** The type conversions at the head of the [map] callback. *)
Definition convert (item : Property) : jsvalue :=
  match value item with
  | VString s =>
      if PropType_eqb (type item) DateTime then
        match parseDate s with
        | Some time => VDate time
        | None => VString s
        end
      else if PropType_eqb (type item) Number then VNumber (parseFloat s)
      else if PropType_eqb (type item) Boolean then
        VBoolean (existsb (jseqb (toLowerCase s))
                          [js "true"; js "yes"; js "1"; js "ok"])
      else VString s
  | other => other
  end.

(** [choicesValues] of a TextChoices property. *)
Definition choicesValues (v : jsvalue) : list jsstring :=
  match v with
  | VArray l => l
  | VString s => filter nonempty (map trim (split_space s))
  | _ => []
  end.

(** [Object.keys(typeArgs).length > 0] *)
Definition hasKeys (ta : TypeArgs) : bool :=
  match subType ta, choices ta, others ta with
  | None, None, [] => false
  | _, _, _ => true
  end.

(** [!typeArgs.subType] *)
Definition noSubType (ta : TypeArgs) : bool :=
  match subType ta with
  | Some (_ :: _) => false
  | _ => true
  end.

(** The callback of [processedProperties.map]. *)
Definition formatProperty (item : Property) : Property :=
  let value := convert item in
  if PropType_eqb (type item) TextChoices then
    let choicesValues := choicesValues value in
    mkProperty (name item) (type item) (VArray choicesValues)
      (Some (mkTypeArgs (Some (js "multi"))
                        (Some (map (fun v => mkChoice v []) choicesValues))
                        []))
  else
    let typeArgs :=
      match typeArgs item with Some ta => ta | None => emptyTypeArgs end in
    let typeArgs :=
      if PropType_eqb (type item) DateTime && noSubType typeArgs
      then mkTypeArgs (Some (js "datetime")) (choices typeArgs) (others typeArgs)
      else typeArgs in
    mkProperty (name item) (type item) value
      (if hasKeys typeArgs then Some typeArgs else None).

Definition formatProperties (processed : list Property) : list Property :=
  map formatProperty processed.

(** C8. A TextChoices property is emitted with [choices] holding one
    [{ n, c: "" }] entry per element of its normalized value sequence, in
    order, and [subType: "multi"]; the emitted [typeArgs] holds nothing
    else and does not depend on the [typeArgs] the caller supplied. *)
Theorem formatProperty_TextChoices
  (nm : jsstring) (v : jsvalue) (supplied : option TypeArgs) :
  let out := formatProperty (mkProperty nm TextChoices v supplied) in
  name out = nm /\ type out = TextChoices /\
  value out = VArray (choicesValues v) /\
  typeArgs out =
    Some (mkTypeArgs (Some (js "multi"))
                     (Some (map (fun x => mkChoice x []) (choicesValues v)))
                     []) /\
  typeArgs out = typeArgs (formatProperty (mkProperty nm TextChoices v None)).
Proof.
  cbv zeta. unfold formatProperty. simpl.
  assert (convert (mkProperty nm TextChoices v supplied) = v) as ->.
  { unfold convert. simpl. destruct v; reflexivity. }
  assert (convert (mkProperty nm TextChoices v None) = v) as ->.
  { unfold convert. simpl. destruct v; reflexivity. }
  repeat split.
Qed.

(** C9. A Boolean property whose value is a string is emitted with the
    value [true] exactly when the lower-cased string is one of ["true"],
    ["yes"], ["1"], ["ok"], and with [false] for every other string. *)
Theorem formatProperty_Boolean
  (nm s : jsstring) (supplied : option TypeArgs) :
  exists b,
    value (formatProperty (mkProperty nm Boolean (VString s) supplied))
    = VBoolean b /\
    (b = true <->
     In (toLowerCase s) [js "true"; js "yes"; js "1"; js "ok"]) /\
    (b = false <->
     ~ In (toLowerCase s) [js "true"; js "yes"; js "1"; js "ok"]).
Proof.
  exists (existsb (jseqb (toLowerCase s)) [js "true"; js "yes"; js "1"; js "ok"]).
  split; [reflexivity|].
  assert (existsb (jseqb (toLowerCase s)) [js "true"; js "yes"; js "1"; js "ok"]
          = true <->
          In (toLowerCase s) [js "true"; js "yes"; js "1"; js "ok"]) as Hiff.
  { rewrite existsb_exists. split.
    - intros (x & Hin & Heq). apply jseqb_eq in Heq. now subst.
    - intros Hin. exists (toLowerCase s). split; [exact Hin | now apply jseqb_eq]. }
  split; [exact Hiff|].
  rewrite <- Hiff. destruct (existsb _ _); split; congruence.
Qed.

End Host.

(** Lower-casing on ASCII letters, for running the formatter. *)
Definition asciiLower (s : jsstring) : jsstring :=
  map (fun ch => if (65 <=? ch)%N && (ch <=? 90)%N then (ch + 32)%N else ch) s.

Definition noDate (s : jsstring) : option Z := None.
Definition nanFloat (s : jsstring) : spec_float := S754_nan.

Example format_boolean_yes :
  value (formatProperty noDate nanFloat asciiLower
           (mkProperty (js "read") Boolean (VString (js "YES")) None))
  = VBoolean true.
Proof. reflexivity. Qed.

Example format_boolean_other :
  value (formatProperty noDate nanFloat asciiLower
           (mkProperty (js "read") Boolean (VString (js "on")) None))
  = VBoolean false.
Proof. reflexivity. Qed.

Example format_choices_split :
  formatProperty noDate nanFloat asciiLower
    (mkProperty (js "genre") TextChoices (VString (js "fiction  nonfiction "))
       (Some (mkTypeArgs None (Some [mkChoice (js "old") (js "red")]) [])))
  = mkProperty (js "genre") TextChoices (VArray [js "fiction"; js "nonfiction"])
      (Some (mkTypeArgs (Some (js "multi"))
               (Some [mkChoice (js "fiction") []; mkChoice (js "nonfiction") []])
               [])).
Proof. reflexivity. Qed.

End Normalizer.

(* ===================================================================== *)
(** ** Awaited host calls *)
(* ===================================================================== *)

(** An asynchronous step runs against the state of the world outside the
    plugin and either resolves or rejects; [await] sequences the steps,
    and a rejection leaves the world as the failed step left it. *)
Module Async.

Definition M (W A : Type) : Type := W -> result A * W.

Definition ret {W A} (a : A) : M W A := fun w => (Ok a, w).

Definition throw {W A} (e : exn) : M W A := fun w => (Throw e, w).

Definition await {W A B} (m : M W A) (k : A -> M W B) : M W B :=
  fun w =>
    match m w with
    | (Ok a, w') => k a w'
    | (Throw e, w') => (Throw e, w')
    end.

(** [try { body } catch (e) { handler }] around awaited steps. *)
Definition try_await {W A} (body : M W A) (handler : exn -> M W A) : M W A :=
  fun w =>
    match body w with
    | (Ok a, w') => (Ok a, w')
    | (Throw e, w') => handler e w'
    end.

(** A synchronous call that may throw. *)
Definition lift {W A} (r : result A) : M W A := fun w => (r, w).

(** A [for ... of] loop that pushes one result per element. *)
Fixpoint for_each {W A B} (f : A -> M W B) (l : list A) : M W (list B) :=
  match l with
  | [] => ret []
  | x :: l' => await (f x) (fun y => await (for_each f l') (fun ys => ret (y :: ys)))
  end.

Declare Scope async_scope.
Delimit Scope async_scope with async.
Notation "x <- m ;; k" := (await m (fun x => k))
  (at level 61, m at next level, right associativity) : async_scope.

End Async.

Import Async.

(* ===================================================================== *)
(** ** Asset resolver: [processProperties] *)
(* ===================================================================== *)

Module Assets.

Definition strip_prefix (p s : jsstring) : option jsstring :=
  if startsWith p s then Some (skipn (List.length p) s) else None.

(** [s.match(/^data:(image\/[^;]+);base64,(.+)$/)]: the groups 1 and 2.
    [[^;]+] runs up to the first semicolon, which must open [;base64,];
    [.+$] is the whole non-empty rest, free of line terminators. *)
Definition match_data_uri (s : jsstring) : option (jsstring * jsstring) :=
  match strip_prefix (js "data:image/") s with
  | None => None
  | Some r =>
      let (m, r1) := span (fun ch => negb (ch =? 59)%N) r in
      match m, strip_prefix (js ";base64,") r1 with
      | _ :: _, Some (d0 :: d) =>
          if forallb (fun ch => negb (isLineTerminator ch)) (d0 :: d)
          then Some (js "image/" ++ m, d0 :: d)
          else None
      | _, _ => None
      end
  end.

(** [new Uint8Array(buffer)[i] = binaryData.charCodeAt(i)] *)
Definition toBytes (binaryData : jsstring) : list N :=
  map (fun ch => (ch mod 256)%N) binaryData.

Section Host.

Variable World : Type.

(** [atob]; [orca.invokeBackend("upload-asset-binary", type, buffer)] and
    [orca.invokeBackend("upload-asset-url", url)], whose answer is a
    string or nothing; [fetch]. *)
Variable atob : jsstring -> result jsstring.
Variable upload_asset_binary : jsstring -> list N -> M World (option jsstring).
Variable upload_asset_url : jsstring -> M World (option jsstring).

Record Response := mkResponse {
  ok : bool;
  arrayBuffer : M World (list N);
  content_type : option jsstring
}.

Variable fetch : jsstring -> M World Response.

(** [if (uploadedUrl) value = uploadedUrl]: the new [value], or the one
    kept. *)
Definition assigned (uploadedUrl : option jsstring) (kept : jsvalue) : jsvalue :=
  match uploadedUrl with
  | Some (ch :: u) => VString (ch :: u)
  | _ => kept
  end.

(** [response.headers.get("content-type") || "image/png"] *)
Definition contentTypeOf (response : Response) : jsstring :=
  match content_type response with
  | Some (ch :: t) => ch :: t
  | _ => js "image/png"
  end.

Local Open Scope async_scope.

(** The branch for a [data:] value. *)
Definition resolveBase64 (s : jsstring) : M World jsvalue :=
  match match_data_uri s with
  | Some (contentType, base64Data) =>
      try_await
        (binaryData <- lift (atob base64Data) ;;
         uploadedUrl <- upload_asset_binary contentType (toBytes binaryData) ;;
         ret (assigned uploadedUrl (VString s)))
        (fun _ => ret (VString s))
  | None => ret (VString s)
  end.

(** The [catch (apiError)] block of the remote branch: fetch the bytes
    and upload them. *)
Definition fetchAndUpload (s : jsstring) : M World jsvalue :=
  response <- fetch s ;;
  if ok response then
    blob <- arrayBuffer response ;;
    uploadedUrl <- upload_asset_binary (contentTypeOf response) blob ;;
    ret (assigned uploadedUrl (VString s))
  else ret (VString s).

(** The branch for a remote URL: upload by reference, then the fallback. *)
Definition resolveRemote (s : jsstring) : M World jsvalue :=
  try_await
    (uploadedUrl <- upload_asset_url s ;;
     match uploadedUrl with
     | Some (ch :: u) => ret (VString (ch :: u))
     | _ => throw (Error (js "upload-asset-url failed"))
     end)
    (fun _ => fetchAndUpload s).

(** The guard of the loop body. *)
Definition shouldResolve (downloadCover : bool) (item : Property) : option jsstring :=
  match value item with
  | VString s =>
      if downloadCover && subTypeIs (js "image") (typeArgs item)
         && (startsWith (js "http") s || startsWith (js "data:") s)
      then Some s else None
  | _ => None
  end.

(** One round of the loop: the object pushed for [item]. *)
Definition processItem (downloadCover : bool) (item : Property) : M World Property :=
  value <-
    match shouldResolve downloadCover item with
    | Some s =>
        try_await
          (if startsWith (js "data:") s then resolveBase64 s else resolveRemote s)
          (fun _ => ret (value item))
    | None => ret (value item)
    end ;;
  ret (mkProperty (name item) (type item) value (typeArgs item)).

Definition processProperties (metadata : list Property) (downloadCover : bool)
  : M World (list Property) :=
  for_each (processItem downloadCover) metadata.

(** *** What resolving means *)

(** The guard holds for [item], whose value is the string [s]. *)
Definition Resolvable (downloadCover : bool) (item : Property) (s : jsstring) : Prop :=
  downloadCover = true /\
  subTypeIs (js "image") (typeArgs item) = true /\
  value item = VString s /\
  (startsWith (js "http") s = true \/ startsWith (js "data:") s = true).

(** Every step on the way from [s] to the uploaded reference [u] went
    well, starting in world [w] and ending in [w']: the inline image was
    matched, decoded and uploaded; or the upload by reference answered
    [u]; or it did not, and the bytes were fetched and uploaded. *)
Definition ResolvedTo (s u : jsstring) (w w' : World) : Prop :=
  u <> [] /\
  ((startsWith (js "data:") s = true /\
    exists contentType base64Data binaryData,
      match_data_uri s = Some (contentType, base64Data) /\
      atob base64Data = Ok binaryData /\
      upload_asset_binary contentType (toBytes binaryData) w = (Ok (Some u), w'))
   \/ (startsWith (js "data:") s = false /\
       upload_asset_url s w = (Ok (Some u), w'))
   \/ (startsWith (js "data:") s = false /\
       exists r w1 response w2 blob w3,
         upload_asset_url s w = (r, w1) /\
         (forall ch t, r <> Ok (Some (ch :: t))) /\
         fetch s w1 = (Ok response, w2) /\ ok response = true /\
         arrayBuffer response w2 = (Ok blob, w3) /\
         upload_asset_binary (contentTypeOf response) blob w3 = (Ok (Some u), w'))).

(** [out] is [item] with its value kept, or resolved between two worlds. *)
Definition Processed (downloadCover : bool) (item out : Property) : Prop :=
  name out = name item /\ type out = type item /\
  typeArgs out = typeArgs item /\
  (value out = value item \/
   exists s u w w',
     Resolvable downloadCover item s /\ value out = VString u /\
     ResolvedTo s u w w').

Lemma shouldResolve_some dc item s :
  shouldResolve dc item = Some s -> Resolvable dc item s.
Proof.
  unfold shouldResolve, Resolvable.
  destruct (value item) as [| | | |s0| |]; try discriminate.
  destruct (dc && _ && _) eqn:E; [|discriminate].
  intros H; injection H as <-.
  apply andb_true_iff in E as [E1 E3]. apply andb_true_iff in E1 as [E1 E2].
  apply orb_true_iff in E3. auto.
Qed.

Lemma assigned_cases uploadedUrl kept :
  (assigned uploadedUrl kept = kept /\ forall ch t, uploadedUrl <> Some (ch :: t))
  \/ (exists u, u <> [] /\ uploadedUrl = Some u /\ assigned uploadedUrl kept = VString u).
Proof.
  destruct uploadedUrl as [[|ch u]|]; simpl.
  - left. split; [reflexivity | discriminate].
  - right. exists (ch :: u). repeat split. discriminate.
  - left. split; [reflexivity | discriminate].
Qed.

Lemma resolveBase64_spec s w :
  startsWith (js "data:") s = true ->
  exists v w', resolveBase64 s w = (Ok v, w') /\
    (v = VString s \/ exists u, v = VString u /\ ResolvedTo s u w w').
Proof.
  intros Hd. unfold resolveBase64.
  destruct (match_data_uri s) as [[ct d]|] eqn:Em; [|unfold ret; eauto].
  unfold try_await, await, lift, ret.
  destruct (atob d) as [bin|e] eqn:Ea; [|eauto].
  destruct (upload_asset_binary ct (toBytes bin) w) as [[up|e] w1] eqn:Eu; [|eauto].
  destruct (assigned_cases up (VString s)) as [[-> _] | (u & Hne & -> & ->)]; [eauto|].
  do 2 eexists. split; [reflexivity|]. right. exists u. split; [reflexivity|].
  split; [exact Hne|]. left. split; [exact Hd|]. exists ct, d, bin. auto.
Qed.

Lemma fetchAndUpload_spec s w1 :
  exists r w', fetchAndUpload s w1 = (r, w') /\
    ((exists e, r = Throw e) \/ r = Ok (VString s) \/
     exists u response w2 blob w3,
       r = Ok (VString u) /\ u <> [] /\
       fetch s w1 = (Ok response, w2) /\ ok response = true /\
       arrayBuffer response w2 = (Ok blob, w3) /\
       upload_asset_binary (contentTypeOf response) blob w3 = (Ok (Some u), w')).
Proof.
  unfold fetchAndUpload, await, ret.
  destruct (fetch s w1) as [[resp|e] w2] eqn:Ef; [|eauto 6].
  destruct (ok resp) eqn:Eok; [|eauto 6].
  destruct (arrayBuffer resp w2) as [[blob|e] w3] eqn:Eb; [|eauto 6].
  destruct (upload_asset_binary (contentTypeOf resp) blob w3)
    as [[up|e] w4] eqn:Eup; [|eauto 6].
  destruct (assigned_cases up (VString s)) as [[-> _] | (u & Hne & -> & ->)];
    [eauto 6|].
  do 2 eexists. split; [reflexivity|]. right; right.
  exists u, resp, w2, blob, w3. auto 10.
Qed.

Lemma resolveRemote_spec s w :
  startsWith (js "data:") s = false ->
  exists r w', resolveRemote s w = (r, w') /\
    ((exists e, r = Throw e) \/ r = Ok (VString s) \/
     exists u, r = Ok (VString u) /\ ResolvedTo s u w w').
Proof.
  intros Hd. unfold resolveRemote, try_await, await, throw, ret.
  destruct (upload_asset_url s w) as [r0 w1] eqn:Eu.
  assert (forall P : Prop,
            (forall ch t, r0 = Ok (Some (ch :: t)) -> P) ->
            ((forall ch t, r0 <> Ok (Some (ch :: t))) -> P) -> P) as Hcase.
  { intros P Hs Hf. destruct r0 as [[[|ch t]|]|e];
      try (apply Hf; discriminate). now apply (Hs ch t). }
  apply Hcase.
  - intros ch t ->. do 2 eexists. split; [reflexivity|]. right; right.
    exists (ch :: t). split; [reflexivity|]. split; [discriminate|].
    right; left. auto.
  - intros Hfail.
    destruct (fetchAndUpload_spec s w1)
      as (r & w' & Hrun & [He | [Hk | (u & resp & w2 & blob & w3 & -> & Hne & H)]]).
    + exists r, w'. split; [|left; exact He].
      destruct r0 as [[[|ch t]|]|e]; try exact Hrun. now destruct (Hfail ch t).
    + exists r, w'. split; [|right; left; exact Hk].
      destruct r0 as [[[|ch t]|]|e]; try exact Hrun. now destruct (Hfail ch t).
    + exists (Ok (VString u)), w'. split.
      * destruct r0 as [[[|ch t]|]|e]; try exact Hrun. now destruct (Hfail ch t).
      * right; right. exists u. split; [reflexivity|]. split; [exact Hne|].
        right; right. split; [exact Hd|].
        exists r0, w1, resp, w2, blob, w3. tauto.
Qed.

(** A data URI that the pattern does not match, and a payload that
    [atob] rejects, leave the value and the world as they were. *)
Lemma resolveBase64_mismatch s w :
  match_data_uri s = None -> resolveBase64 s w = (Ok (VString s), w).
Proof. unfold resolveBase64. intros ->. reflexivity. Qed.

Lemma resolveBase64_decode_error s contentType base64Data e w :
  match_data_uri s = Some (contentType, base64Data) ->
  atob base64Data = Throw e ->
  resolveBase64 s w = (Ok (VString s), w).
Proof.
  unfold resolveBase64, try_await, await, lift, ret. intros -> ->. reflexivity.
Qed.

(** One round resolves in every world, and its object is [Processed]. *)
Lemma processItem_spec downloadCover item w :
  exists out w',
    processItem downloadCover item w = (Ok out, w') /\
    Processed downloadCover item out.
Proof.
  unfold processItem, Processed, await at 1.
  destruct (shouldResolve downloadCover item) as [s|] eqn:Eg.
  - apply shouldResolve_some in Eg. unfold try_await.
    destruct (startsWith (js "data:") s) eqn:Ed.
    + destruct (@resolveBase64_spec s w Ed) as (v & w' & -> & Hv).
      unfold ret. do 2 eexists. split; [reflexivity|]. simpl.
      repeat split. destruct Hv as [-> | (u & -> & Hu)].
      * left. symmetry. apply Eg.
      * right. exists s, u, w, w'. auto.
    + destruct (@resolveRemote_spec s w Ed)
        as (r & w' & -> & [[e ->] | [-> | (u & -> & Hu)]]);
        unfold ret; do 2 eexists; (split; [reflexivity|]); simpl; repeat split.
      * now left.
      * left. symmetry. apply Eg.
      * right. exists s, u, w, w'. auto.
  - unfold ret. do 2 eexists. split; [reflexivity|]. simpl. repeat split. now left.
Qed.

Lemma processProperties_spec metadata downloadCover w :
  exists out w',
    processProperties metadata downloadCover w = (Ok out, w') /\
    Forall2 (Processed downloadCover) metadata out.
Proof.
  unfold processProperties. revert w.
  induction metadata as [|item rest IH]; intros w; simpl.
  - exists [], w. split; [reflexivity | constructor].
  - unfold await at 1.
    destruct (processItem_spec downloadCover item w) as (o & w1 & -> & Ho).
    unfold await at 1. destruct (IH w1) as (os & w2 & -> & Hos).
    exists (o :: os), w2. split; [reflexivity | now constructor].
Qed.


(** C10. [processProperties] returns as many items as it was given, in
    the same order, each with the [name], [type] and [typeArgs] of the
    item it comes from. *)
Theorem processProperties_frame
  (metadata : list Property) (downloadCover : bool) (w : World) :
  exists out w',
    processProperties metadata downloadCover w = (Ok out, w') /\
    List.length out = List.length metadata /\
    map name out = map name metadata /\
    map type out = map type metadata /\
    map typeArgs out = map typeArgs metadata.
Proof.
  destruct (processProperties_spec metadata downloadCover w) as (out & w' & Hrun & H).
  exists out, w'. split; [exact Hrun|]. clear Hrun.
  induction H as [|item o md os (Hn & Ht & Ha & _) _ (IHl & IHn & IHt & IHa)];
    simpl; [repeat split|].
  rewrite IHl, IHn, IHt, IHa, Hn, Ht, Ha. repeat split.
Qed.

End Host.

(** *** The inline-image pattern *)

Lemma strip_prefix_some p s r : strip_prefix p s = Some r -> s = p ++ r.
Proof.
  unfold strip_prefix. destruct (startsWith p s) eqn:E; [|discriminate].
  apply startsWith_app in E as [r' ->]. intros H; injection H as <-.
  now rewrite skipn_app, skipn_all, Nat.sub_diag.
Qed.

(** A match has the shape [data:image/<m>;base64,<d>], [m] non-empty
    without semicolon, [d] non-empty without line terminator. *)
Lemma match_data_uri_some s contentType base64Data :
  match_data_uri s = Some (contentType, base64Data) ->
  exists m,
    s = js "data:" ++ contentType ++ js ";base64," ++ base64Data /\
    contentType = js "image/" ++ m /\ m <> [] /\
    Forall (fun ch => ch <> 59%N) m /\
    base64Data <> [] /\
    Forall (fun ch => isLineTerminator ch = false) base64Data.
Proof.
  unfold match_data_uri.
  destruct (strip_prefix (js "data:image/") s) as [r|] eqn:Ep; [|discriminate].
  apply strip_prefix_some in Ep. subst s.
  destruct (span _ r) as [m r1] eqn:Es.
  destruct (span_spec _ _ Es) as (-> & Hm & _).
  destruct m as [|m0 m]; [discriminate|].
  destruct (strip_prefix (js ";base64,") r1) as [[|d0 d]|] eqn:Eb; try discriminate.
  apply strip_prefix_some in Eb. subst r1.
  destruct (forallb _ (d0 :: d)) eqn:Ef; [|discriminate].
  intros H; injection H as <- <-. exists (m0 :: m).
  split; [|split; [reflexivity|split; [discriminate|split; [|split; [discriminate|]]]]].
  - change (js "data:image/") with (js "data:" ++ js "image/").
    now rewrite <- !app_assoc.
  - eapply Forall_impl; [|exact Hm]. intros ch Hc E. subst ch. discriminate.
  - apply Forall_forall. intros ch Hin.
    rewrite forallb_forall in Ef. apply Ef in Hin. now apply negb_true_iff in Hin.
Qed.

(** *** A host to run the resolver on *)

(** The world counts the uploads; [atob] hands its argument back;
    uploads by reference are refused and the network is down; uploads of
    bytes are stored. *)
Definition demo_atob (s : jsstring) : result jsstring := Ok s.

Definition demo_upload_binary (contentType : jsstring) (buffer : list N)
  : M nat (option jsstring) :=
  fun w => (Ok (Some (js "assets/cover.png")), S w).

Definition demo_upload_url (url : jsstring) : M nat (option jsstring) :=
  fun w => (Throw (Error (js "not supported")), w).

Definition demo_fetch (url : jsstring) : M nat (Response nat) :=
  fun w => (Throw (Error (js "Failed to fetch")), w).

Definition demo_processProperties :=
  processProperties demo_atob demo_upload_binary demo_upload_url demo_fetch.

Definition cover (v : jsstring) : Property :=
  mkProperty (js "cover") Text (VString v)
    (Some (mkTypeArgs (Some (js "image")) None [])).

(** The header of an inline image with no data after it: the value is
    kept and nothing is uploaded. *)
Example processProperties_empty_data_uri :
  demo_processProperties [cover (js "data:image/png;base64,")] true 0
  = (Ok [cover (js "data:image/png;base64,")], 0).
Proof. reflexivity. Qed.

Example processProperties_inline_image :
  demo_processProperties [cover (js "data:image/png;base64,iVBORw0KGgo=")] true 0
  = (Ok [cover (js "assets/cover.png")], 1).
Proof. reflexivity. Qed.

(** Both ways of fetching a remote image fail: the URL is kept. *)
Example processProperties_remote_failure :
  demo_processProperties [cover (js "https://img.example/s1.jpg")] true 0
  = (Ok [cover (js "https://img.example/s1.jpg")], 0).
Proof. reflexivity. Qed.

Example processProperties_not_requested :
  demo_processProperties [cover (js "data:image/png;base64,iVBORw0KGgo=")] false 0
  = (Ok [cover (js "data:image/png;base64,iVBORw0KGgo=")], 0).
Proof. reflexivity. Qed.

End Assets.

(* ===================================================================== *)
(** ** Static extraction: [extractMetadataStatic] *)
(* ===================================================================== *)

Module Extraction.

(** [url.split('?')[0].split('#')[0]] *)
Definition cleanUrl (url : jsstring) : jsstring :=
  fst (span (fun ch => negb (ch =? 35)%N)
            (fst (span (fun ch => negb (ch =? 63)%N) url))).

(** [scriptLines.join("\n")] *)
Fixpoint join_lines (lines : list jsstring) : jsstring :=
  match lines with
  | [] => []
  | [l] => l
  | l :: rest => l ++ 10%N :: join_lines rest
  end.

(** [a || b] on strings that may be missing. *)
Definition or_else (a : option jsstring) (b : jsstring) : jsstring :=
  match a with
  | Some (ch :: s) => ch :: s
  | _ => b
  end.

(** The decimal digits of a number, as a template literal prints it. *)
Definition decimal (x : N) : jsstring :=
  js (DecimalString.NilZero.string_of_uint (N.to_uint x)).

(** What a script hands back when it is not an array. *)
Inductive notArray :=
| NUndefined
| NNull
| NBoolean (b : bool)
| NNumber (x : spec_float)
| NString (s : jsstring)
| NObject.

(** The value returned by the extractor function. *)
Inductive scriptReturn :=
| RetArray (items : list Property)
| RetOther (v : notArray).

Section Host.

Variable World : Type.
Variable Document : Type.

(** [new URL(url)] succeeds. *)
Variable isValidUrl : jsstring -> bool.

Record Response := mkResponse {
  ok : bool;
  status : N;
  text : M World jsstring
}.

Variable fetch : jsstring -> M World Response.

(** [new DOMParser().parseFromString(html, "text/html")];
    [doc.querySelector(sel)?.getAttribute(attr)] and
    [doc.querySelector(sel)?.textContent]. *)
Variable parseFromString : jsstring -> Document.
Variable getAttribute : Document -> jsstring -> jsstring -> option jsstring.
Variable textContent : Document -> jsstring -> option jsstring.

(** [new Function("doc", "url", "PropType", "cleanUrl", "baseMeta", script)]
    called on [(doc, cleanedUrl, PropType, cleanUrl, baseMeta)]: the value
    returned, or what building or running the function throws. *)
Variable runScript :
  jsstring -> Document -> jsstring -> list Property -> result scriptReturn.

Definition getGenericMetadata (doc : Document) (url : jsstring) : list Property :=
  let title :=
    or_else (option_map trim (getAttribute doc (js "meta[property='og:title']")
                                           (js "content")))
      (or_else (option_map trim (textContent doc (js "title"))) []) in
  let image :=
    or_else (getAttribute doc (js "meta[property='og:image']") (js "content"))
      (or_else (getAttribute doc (js "meta[name='og:image']") (js "content"))
         (or_else (getAttribute doc (js "link[rel='icon']") (js "href")) [])) in
  [ mkProperty [38142; 25509]%N Text (VString url)
      (Some (mkTypeArgs (Some (js "link")) None []));
    mkProperty [26631; 39064]%N Text (VString title) None;
    mkProperty [23553; 38754]%N Text (VString image)
      (Some (mkTypeArgs (Some (js "image")) None [])) ].

Local Open Scope async_scope.

Definition extractMetadataStatic (url : jsstring) (scriptLines : list jsstring)
  : M World (list Property) :=
  try_await
    (if negb (nonempty url) || negb (isValidUrl url) then
       throw (Error (js "Invalid URL"))
     else
       response <- fetch url ;;
       if negb (ok response) then
         throw (Error (js "HTTP error! status: " ++ decimal (status response)))
       else
         html <- text response ;;
         let doc := parseFromString html in
         let cleanedUrl := cleanUrl url in
         let baseMeta := getGenericMetadata doc cleanedUrl in
         let script := join_lines scriptLines in
         result <- lift (runScript script doc cleanedUrl baseMeta) ;;
         ret (match result with
              | RetArray items => items
              | RetOther _ => []
              end))
    (fun error => throw error).

(** What the static path does with a script result that is not an
    array: once the page was fetched, extraction resolves with the empty
    property list instead of rejecting. *)
Theorem extractMetadataStatic_non_sequence
  (url : jsstring) (scriptLines : list jsstring) (w w1 w2 : World)
  (response : Response) (html : jsstring) (v : notArray) :
  nonempty url = true -> isValidUrl url = true ->
  fetch url w = (Ok response, w1) -> ok response = true ->
  text response w1 = (Ok html, w2) ->
  runScript (join_lines scriptLines) (parseFromString html) (cleanUrl url)
            (getGenericMetadata (parseFromString html) (cleanUrl url))
  = Ok (RetOther v) ->
  extractMetadataStatic url scriptLines w = (Ok [], w2).
Proof.
  intros Hu Hv Hf Hok Ht Hs.
  unfold extractMetadataStatic, try_await, await, lift, ret.
  rewrite Hu, Hv. simpl. rewrite Hf, Hok. simpl. rewrite Ht, Hs. reflexivity.
Qed.

(** A script that throws makes extraction reject with what it threw. *)
Lemma extractMetadataStatic_script_throws
  (url : jsstring) (scriptLines : list jsstring) (w w1 w2 : World)
  (response : Response) (html : jsstring) (e : exn) :
  nonempty url = true -> isValidUrl url = true ->
  fetch url w = (Ok response, w1) -> ok response = true ->
  text response w1 = (Ok html, w2) ->
  runScript (join_lines scriptLines) (parseFromString html) (cleanUrl url)
            (getGenericMetadata (parseFromString html) (cleanUrl url))
  = Throw e ->
  extractMetadataStatic url scriptLines w = (Throw e, w2).
Proof.
  intros Hu Hv Hf Hok Ht Hs.
  unfold extractMetadataStatic, try_await, await, lift, ret, throw.
  rewrite Hu, Hv. simpl. rewrite Hf, Hok. simpl. rewrite Ht, Hs. reflexivity.
Qed.

End Host.

(** *** A host to run extraction on *)

(** Every URL with a scheme separator is valid, every page is fetched
    with status 200 and an empty head, and three script bodies are
    understood. *)
Definition demo_isValidUrl (url : jsstring) : bool := includes (js "://") url.

Definition demo_fetch (url : jsstring) : M nat (Response nat) :=
  fun w => (Ok (mkResponse true 200 (fun w' => (Ok (js "<html></html>"), w'))), S w).

Definition demo_runScript (script : jsstring) (doc : jsstring) (url : jsstring)
  (baseMeta : list Property) : result scriptReturn :=
  if jseqb script (js "return baseMeta;") then Ok (RetArray baseMeta)
  else if jseqb script (js "return null;") then Ok (RetOther NNull)
  else if jseqb script (js "return { name: 'title' };") then Ok (RetOther NObject)
  else Throw (Error (js "SyntaxError")).

Definition demo_extract : jsstring -> list jsstring -> M nat (list Property) :=
  extractMetadataStatic demo_isValidUrl demo_fetch (fun html => html)
    (fun _ _ _ => None) (fun _ _ => None) demo_runScript.

Example extract_baseMeta :
  demo_extract (js "https://book.douban.com/subject/1/?from=tag#top")
               [js "return baseMeta;"] 0
  = (Ok [ mkProperty [38142; 25509]%N Text
            (VString (js "https://book.douban.com/subject/1/"))
            (Some (mkTypeArgs (Some (js "link")) None []));
          mkProperty [26631; 39064]%N Text (VString []) None;
          mkProperty [23553; 38754]%N Text (VString [])
            (Some (mkTypeArgs (Some (js "image")) None [])) ], 1).
Proof. reflexivity. Qed.

Example extract_invalid_url :
  demo_extract (js "douban") [js "return baseMeta;"] 0
  = (Throw (Error (js "Invalid URL")), 0).
Proof. reflexivity. Qed.

(** C3. The claim asks that a script result that is not a sequence make
    static extraction fail; the code does not: here the script returns
    an object that is no array, and extraction resolves with the empty
    property list. *)
Lemma extractMetadataStatic_object_returned :
  demo_runScript (js "return { name: 'title' };") (js "<html></html>")
    (js "https://book.douban.com/subject/1/") []
  = Ok (RetOther NObject) /\
  demo_extract (js "https://book.douban.com/subject/1/")
               [js "return { name: 'title' };"] 0
  = (Ok [], 1).
Proof. split; reflexivity. Qed.

Lemma extractMetadataStatic_non_sequence_witness :
  demo_extract (js "https://book.douban.com/subject/1/") [js "return null;"] 0
  = (Ok [], 1).
Proof.
  apply (@extractMetadataStatic_non_sequence nat jsstring demo_isValidUrl
           demo_fetch (fun html => html) (fun _ _ _ => None) (fun _ _ => None)
           demo_runScript (js "https://book.douban.com/subject/1/")
           [js "return null;"] 0 1 1
           (mkResponse true 200 (fun w' => (Ok (js "<html></html>"), w')))
           (js "<html></html>") NNull); reflexivity.
Defined.

End Extraction.

(* ===================================================================== *)
(** ** Schema reconciler: [syncTagSchema] *)
(* ===================================================================== *)

Module Reconciler.

(** [existingProps.find((p) => p.name === nm)] *)
Definition findByName (nm : jsstring) (props : list PropDef) : option PropDef :=
  find (fun p => jseqb (def_name p) nm) props.

(** [typeArgs?.choices || []] *)
Definition choicesOf (ta : option TypeArgs) : list Choice :=
  match ta with
  | Some a => match choices a with Some l => l | None => [] end
  | None => []
  end.

(** Whether [typeArgs?.choices] is an array of the property itself, to
    which [push] then appends in place. *)
Definition ownsChoices (ta : option TypeArgs) : bool :=
  match ta with
  | Some a => match choices a with Some _ => true | None => false end
  | None => false
  end.

(** [existingNames.has(nm)] *)
Definition hasName (existingNames : list jsstring) (nm : jsstring) : bool :=
  existsb (jseqb nm) existingNames.

(** The new choices that the inner loop pushes. *)
Definition pushed (existingChoices newChoices : list Choice) : list Choice :=
  filter (fun nc => negb (hasName (map n existingChoices) (n nc))) newChoices.

(** [{ ...typeArgs, choices: l, subType: "multi" }] *)
Definition mergedTypeArgs (ta : option TypeArgs) (l : list Choice) : TypeArgs :=
  mkTypeArgs (Some (js "multi")) (Some l)
             (match ta with Some a => others a | None => [] end).

(** The effect of [existingChoices.push] on the property called [nm]. *)
Fixpoint setChoices (nm : jsstring) (l : list Choice) (props : list PropDef)
  : list PropDef :=
  match props with
  | [] => []
  | p :: rest =>
      if jseqb (def_name p) nm then
        mkPropDef (def_name p) (def_type p)
          (option_map (fun a => mkTypeArgs (subType a) (Some l) (others a))
                      (def_typeArgs p)) :: rest
      else p :: setChoices nm l rest
  end.

(** An entry of [propsToUpdate]. An addition holds the new property's own
    [typeArgs]. A merge holds [{ ...existingProp.typeArgs, choices,
    subType }], where [choices] is the array [existingChoices] itself:
    the array of the existing property called [shares] when it had one
    (later pushes to it show in the entry), a fresh one otherwise. *)
Inductive staged :=
| Addition (d : PropDef)
| Merge (nm : jsstring) (ty : PropType) (base : option TypeArgs)
        (shares : bool) (fresh : list Choice).

(** One round of [for (const prop of properties)]. *)
Definition step (st : list PropDef * list staged) (prop : Property)
  : list PropDef * list staged :=
  let (existingProps, propsToUpdate) := st in
  match findByName (name prop) existingProps with
  | None =>
      (existingProps,
       propsToUpdate ++ [Addition (mkPropDef (name prop) (type prop) (typeArgs prop))])
  | Some existingProp =>
      if PropType_eqb (type prop) TextChoices
         && PropType_eqb (def_type existingProp) TextChoices
      then
        let existingChoices := choicesOf (def_typeArgs existingProp) in
        let newChoices := choicesOf (typeArgs prop) in
        let added := pushed existingChoices newChoices in
        let shares := ownsChoices (def_typeArgs existingProp) in
        (if shares
         then setChoices (name prop) (existingChoices ++ added) existingProps
         else existingProps,
         match added with
         | [] => propsToUpdate
         | _ :: _ =>
             propsToUpdate ++
             [Merge (name prop) (type prop) (def_typeArgs existingProp)
                    shares (existingChoices ++ added)]
         end)
      else st
  end.

Definition stage_loop (existingProps : list PropDef) (properties : list Property)
  : list PropDef * list staged :=
  fold_left step properties (existingProps, []).

(** What an entry holds when the loop is over. *)
Definition settle (final : list PropDef) (e : staged) : PropDef :=
  match e with
  | Addition d => d
  | Merge nm ty base shares fresh =>
      mkPropDef nm ty
        (Some (mergedTypeArgs base
                 (if shares
                  then choicesOf (match findByName nm final with
                                  | Some p => def_typeArgs p
                                  | None => None
                                  end)
                  else fresh)))
  end.

(** [propsToUpdate] after the loop. *)
Definition stage (existingProps : list PropDef) (properties : list Property)
  : list PropDef :=
  let (final, propsToUpdate) := stage_loop existingProps properties in
  map (settle final) propsToUpdate.

(** A tag block as [get-block] returns it. *)
Record TagBlock := mkTagBlock { properties : option (list PropDef) }.

(** [JSON.parse(JSON.stringify(propsToUpdate))]: definitions made of
    strings, a type code and optional fields come back as they were. *)
Definition jsonCopy (propsToUpdate : list PropDef) : list PropDef := propsToUpdate.

Section Host.

Variable World : Type.

(** [orca.invokeBackend("get-block", id)] and
    [orca.commands.invokeEditorCommand("core.editor.setProperties", null,
    [id], props)]. *)
Variable get_block : Z -> M World (option TagBlock).
Variable setProperties : Z -> list PropDef -> M World unit.

Local Open Scope async_scope.

Definition syncTagSchema (tagBlockId : Z) (props : list Property) : M World unit :=
  try_await
    (tagBlock <- get_block tagBlockId ;;
     match tagBlock with
     | None => ret tt
     | Some tb =>
         let existingProps :=
           match properties tb with Some l => l | None => [] end in
         let propsToUpdate := stage existingProps props in
         match propsToUpdate with
         | [] => ret tt
         | _ :: _ => setProperties tagBlockId (jsonCopy propsToUpdate)
         end
     end)
    (fun _ => ret tt).

End Host.

(** *** The host's schema store *)

(** The tag block the calls are about, and the commands issued so far. *)
Record Store := mkStore {
  block : option TagBlock;
  commands : list (list PropDef)
}.

Definition schemaOf (w : Store) : list PropDef :=
  match block w with
  | Some tb => match properties tb with Some l => l | None => [] end
  | None => []
  end.

(** [get-block] answers with a copy of the stored block. *)
Definition store_get_block (id : Z) : M Store (option TagBlock) :=
  fun w => (Ok (block w), w).

(** Modelled from the spec: the host command [core.editor.setProperties],
    which is not part of the plugin.  A staged definition whose name the
    schema has replaces the type and typeArgs of that property (in
    place); one whose name is new is added at the end; nothing is ever
    removed. *)
Fixpoint upsert (d : PropDef) (props : list PropDef) : list PropDef :=
  match props with
  | [] => [d]
  | p :: rest =>
      if jseqb (def_name p) (def_name d) then d :: rest
      else p :: upsert d rest
  end.

Definition applyStaged (propsToUpdate : list PropDef) (props : list PropDef)
  : list PropDef :=
  fold_left (fun acc d => upsert d acc) propsToUpdate props.

Definition store_setProperties (id : Z) (propsToUpdate : list PropDef)
  : M Store unit :=
  fun w =>
    (Ok tt,
     mkStore
       (option_map
          (fun tb => mkTagBlock (Some (applyStaged propsToUpdate (schemaOf w))))
          (block w))
       (commands w ++ [propsToUpdate])).

Definition storeSync : Z -> list Property -> M Store unit :=
  syncTagSchema store_get_block store_setProperties.

(** *** One property against the schema *)

(** What one new property stages, given what [find] returned for its
    name and no other property of the same name in the pass. *)
Definition stage1 (found : option PropDef) (prop : Property) : list PropDef :=
  match found with
  | None => [mkPropDef (name prop) (type prop) (typeArgs prop)]
  | Some existingProp =>
      if PropType_eqb (type prop) TextChoices
         && PropType_eqb (def_type existingProp) TextChoices
      then
        let existingChoices := choicesOf (def_typeArgs existingProp) in
        match pushed existingChoices (choicesOf (typeArgs prop)) with
        | [] => []
        | added =>
            [mkPropDef (name prop) (type prop)
               (Some (mergedTypeArgs (def_typeArgs existingProp)
                                     (existingChoices ++ added)))]
        end
      else []
  end.

Lemma findByName_setChoices_other nm nm' l props :
  nm' <> nm -> findByName nm' (setChoices nm l props) = findByName nm' props.
Proof.
  intros Hne. induction props as [|p rest IH]; simpl; [reflexivity|].
  destruct (jseqb (def_name p) nm) eqn:E; simpl.
  - apply jseqb_eq in E.
    destruct (jseqb (def_name p) nm') eqn:E'; [|reflexivity].
    apply jseqb_eq in E'. congruence.
  - destruct (jseqb (def_name p) nm'); [reflexivity | exact IH].
Qed.

Lemma findByName_setChoices_same nm l props p :
  findByName nm props = Some p ->
  findByName nm (setChoices nm l props)
  = Some (mkPropDef (def_name p) (def_type p)
            (option_map (fun a => mkTypeArgs (subType a) (Some l) (others a))
                        (def_typeArgs p))).
Proof.
  induction props as [|q rest IH]; simpl; [discriminate|].
  destruct (jseqb (def_name q) nm) eqn:E; simpl.
  - intros H; injection H as <-. now rewrite E.
  - rewrite E. exact IH.
Qed.

Lemma step_spec st acc prop :
  exists new,
    snd (step (st, acc) prop) = acc ++ new /\
    (forall nm, nm <> name prop ->
       findByName nm (fst (step (st, acc) prop)) = findByName nm st) /\
    (forall final,
       findByName (name prop) final
       = findByName (name prop) (fst (step (st, acc) prop)) ->
       map (settle final) new = stage1 (findByName (name prop) st) prop).
Proof.
  unfold step, stage1.
  destruct (findByName (name prop) st) as [ex|] eqn:Ef.
  - destruct (PropType_eqb (type prop) TextChoices
              && PropType_eqb (def_type ex) TextChoices).
    + cbv zeta.
      set (old := choicesOf (def_typeArgs ex)).
      set (added := pushed old (choicesOf (typeArgs prop))).
      destruct (ownsChoices (def_typeArgs ex)) eqn:Eo; simpl fst; simpl snd.
      * destruct added as [|a added'] eqn:Ea.
        -- exists []. rewrite app_nil_r. repeat split.
           intros nm Hne. now apply findByName_setChoices_other.
        -- eexists. split; [reflexivity|]. split.
           ++ intros nm Hne. now apply findByName_setChoices_other.
           ++ intros final Hfin. simpl. rewrite Hfin.
              erewrite findByName_setChoices_same by exact Ef. simpl.
              unfold ownsChoices in Eo.
              destruct (def_typeArgs ex) as [ta|]; [|discriminate]. reflexivity.
      * destruct added as [|a added'] eqn:Ea.
        -- exists []. rewrite app_nil_r. repeat split.
        -- eexists. split; [reflexivity|]. split; [reflexivity|].
           intros final _. reflexivity.
    + exists []. simpl. rewrite app_nil_r. repeat split.
  - eexists. simpl. split; [reflexivity|]. split; [reflexivity|].
    intros final _. reflexivity.
Qed.

(** *** The loop over properties of distinct names *)

Lemma stage1_name found prop d :
  In d (stage1 found prop) -> def_name d = name prop.
Proof.
  unfold stage1. destruct found as [ex|].
  - destruct (_ && _); [|intros []].
    destruct (pushed _ _); [intros []|]. intros [<- | []]. reflexivity.
  - intros [<- | []]. reflexivity.
Qed.

Lemma loop_spec props :
  forall st acc,
    NoDup (map name props) ->
    (forall nm, ~ In nm (map name props) ->
       findByName nm (fst (fold_left step props (st, acc))) = findByName nm st) /\
    exists new,
      snd (fold_left step props (st, acc)) = acc ++ new /\
      map (settle (fst (fold_left step props (st, acc)))) new
      = flat_map (fun p => stage1 (findByName (name p) st) p) props.
Proof.
  induction props as [|prop rest IH]; intros st acc Hnd;
    cbn [fold_left flat_map map] in *.
  - split; [reflexivity|]. exists []. now rewrite app_nil_r.
  - inversion Hnd as [|? ? Hnotin Hnd']; subst.
    destruct (step_spec st acc prop) as (new1 & Hacc & Hoff & Hsettle).
    destruct (step (st, acc) prop) as [st1 acc1] eqn:Es. simpl in Hacc, Hoff, Hsettle.
    destruct (IH st1 acc1 Hnd') as (Hfinal & new & Hsnd & Hmap).
    split.
    + intros nm Hnm. rewrite Hfinal by (intros Hin; apply Hnm; now right).
      apply Hoff.
      intros ->. apply Hnm. now left.
    + exists (new1 ++ new). split.
      * rewrite Hsnd, Hacc. now rewrite app_assoc.
      * rewrite map_app, Hmap. f_equal.
        -- apply Hsettle. now apply Hfinal.
        -- clear - Hoff Hnotin. induction rest as [|q rest IHr]; [reflexivity|].
           cbn [flat_map map] in *.
           rewrite IHr by (intros Hin; apply Hnotin; now right).
           rewrite Hoff; [reflexivity|]. intros E. apply Hnotin. now left.
Qed.

Lemma stage_nodup st props :
  NoDup (map name props) ->
  stage st props = flat_map (fun p => stage1 (findByName (name p) st) p) props.
Proof.
  intros Hnd. unfold stage, stage_loop.
  destruct (@loop_spec props st [] Hnd) as (_ & new & Hsnd & Hmap).
  destruct (fold_left step props (st, [])) as [final staged0].
  simpl in Hsnd, Hmap. subst staged0. exact Hmap.
Qed.

(** *** Applying what was staged *)

Lemma upsert_same d props : findByName (def_name d) (upsert d props) = Some d.
Proof.
  induction props as [|p rest IH]; simpl.
  - replace (jseqb (def_name d) (def_name d)) with true
      by (symmetry; now apply jseqb_eq). reflexivity.
  - destruct (jseqb (def_name p) (def_name d)) eqn:E; simpl.
    + replace (jseqb (def_name d) (def_name d)) with true
        by (symmetry; now apply jseqb_eq). reflexivity.
    + rewrite E. exact IH.
Qed.

Lemma upsert_other d nm props :
  nm <> def_name d -> findByName nm (upsert d props) = findByName nm props.
Proof.
  intros Hne. induction props as [|p rest IH]; simpl.
  - destruct (jseqb (def_name d) nm) eqn:E; [|reflexivity].
    apply jseqb_eq in E. congruence.
  - destruct (jseqb (def_name p) (def_name d)) eqn:E; simpl.
    + apply jseqb_eq in E.
      destruct (jseqb (def_name d) nm) eqn:E1; [apply jseqb_eq in E1; congruence|].
      destruct (jseqb (def_name p) nm) eqn:E2; [apply jseqb_eq in E2; congruence|].
      reflexivity.
    + destruct (jseqb (def_name p) nm); [reflexivity | exact IH].
Qed.

Lemma applyStaged_other l nm props :
  (forall d, In d l -> def_name d <> nm) ->
  findByName nm (applyStaged l props) = findByName nm props.
Proof.
  unfold applyStaged. revert props.
  induction l as [|d l IH]; intros props H; simpl; [reflexivity|].
  rewrite IH by (intros d' Hin; apply H; now right).
  apply upsert_other. intros E. apply (H d); [now left | now symmetry].
Qed.

(** The schema entry of a property's name after the pass was applied. *)
Definition after (found : option PropDef) (prop : Property) : option PropDef :=
  match stage1 found prop with
  | d :: _ => Some d
  | [] => found
  end.

Lemma stage1_short found prop : List.length (stage1 found prop) <= 1.
Proof.
  unfold stage1. destruct found as [ex|]; simpl; [|lia].
  destruct (_ && _); simpl; [|lia]. destruct (pushed _ _); simpl; lia.
Qed.

Lemma applyStaged_find (g : Property -> option PropDef) props :
  forall st p,
    NoDup (map name props) -> In p props ->
    findByName (name p)
      (applyStaged (flat_map (fun q => stage1 (g q) q) props) st)
    = match stage1 (g p) p with
      | d :: _ => Some d
      | [] => findByName (name p) st
      end.
Proof.
  induction props as [|q rest IH]; intros st p Hnd Hin; [destruct Hin|].
  inversion Hnd as [|? ? Hnotin Hnd']; subst.
  cbn [flat_map]. unfold applyStaged. rewrite fold_left_app.
  fold (applyStaged (stage1 (g q) q) st).
  fold (applyStaged (flat_map (fun q0 => stage1 (g q0) q0) rest)
                    (applyStaged (stage1 (g q) q) st)).
  destruct Hin as [-> | Hin].
  - rewrite applyStaged_other.
    + pose proof (stage1_short (g p) p) as Hlen.
      pose proof (@stage1_name (g p) p) as Hname.
      destruct (stage1 (g p) p) as [|d [|d' l]]; simpl in Hlen; try lia.
      * reflexivity.
      * unfold applyStaged. simpl. rewrite <- (Hname d) by now left.
        apply upsert_same.
    + intros d Hd E. apply in_flat_map in Hd as (q & Hq & Hd).
      apply stage1_name in Hd. apply Hnotin. apply in_map_iff.
      exists q. split; [congruence | exact Hq].
  - rewrite (IH _ p Hnd' Hin).
    destruct (stage1 (g p) p); [|reflexivity].
    apply applyStaged_other. intros d Hd E. apply stage1_name in Hd.
    apply Hnotin. apply in_map_iff. exists p. split; [congruence | exact Hin].
Qed.

(** *** The second pass *)

Lemma hasName_In names nm : hasName names nm = true <-> In nm names.
Proof.
  unfold hasName. rewrite existsb_exists. split.
  - intros (x & Hin & E). apply jseqb_eq in E. now subst.
  - intros Hin. exists nm. split; [exact Hin | now apply jseqb_eq].
Qed.

Lemma pushed_In old new nc :
  In nc (pushed old new) <-> In nc new /\ ~ In (n nc) (map n old).
Proof.
  unfold pushed. rewrite filter_In, negb_true_iff.
  rewrite <- hasName_In. destruct (hasName (map n old) (n nc)); intuition congruence.
Qed.

Lemma pushed_nil old new :
  (forall nc, In nc new -> In (n nc) (map n old)) -> pushed old new = [].
Proof.
  intros H. destruct (pushed old new) as [|nc l] eqn:E; [reflexivity|].
  assert (In nc (pushed old new)) as Hin by (rewrite E; now left).
  apply pushed_In in Hin as [Hin Hn]. now destruct (Hn (H _ Hin)).
Qed.

Lemma pushed_again old new : pushed (old ++ pushed old new) new = [].
Proof.
  apply pushed_nil. intros nc Hin. rewrite map_app, in_app_iff.
  destruct (hasName (map n old) (n nc)) eqn:E.
  - left. now apply hasName_In.
  - right. apply in_map. apply pushed_In. split; [exact Hin|].
    rewrite <- hasName_In. congruence.
Qed.

(** Once its own staged change is in the schema, a property stages
    nothing. *)
Lemma stage1_after found prop : stage1 (after found prop) prop = [].
Proof.
  unfold after. destruct (stage1 found prop) as [|d l] eqn:E.
  - unfold stage1 in *. destruct found as [ex|]; [|discriminate].
    destruct (_ && _); [|reflexivity].
    destruct (pushed _ _); [reflexivity | discriminate].
  - unfold stage1 in E. destruct found as [ex|].
    + destruct (PropType_eqb (type prop) TextChoices
                && PropType_eqb (def_type ex) TextChoices) eqn:Et; [|discriminate].
      destruct (pushed _ _) as [|a added] eqn:Ep; [discriminate|].
      injection E as <- <-. unfold stage1. cbn [def_type def_typeArgs].
      apply andb_true_iff in Et as [Et _]. rewrite Et. simpl.
      rewrite <- Ep. unfold mergedTypeArgs, choicesOf at 1 2. cbn [choices].
      now rewrite pushed_again.
    + injection E as <- <-. unfold stage1. cbn [def_type def_typeArgs].
      destruct (PropType_eqb (type prop) TextChoices); [|reflexivity]. simpl.
      rewrite pushed_nil; [reflexivity|]. intros nc Hin. now apply in_map.
Qed.

Lemma stage_twice st props :
  NoDup (map name props) ->
  stage (applyStaged (stage st props) st) props = [].
Proof.
  intros Hnd. rewrite (@stage_nodup st props Hnd).
  rewrite stage_nodup by exact Hnd.
  assert (forall l, incl l props ->
            flat_map (fun p =>
              stage1 (findByName (name p)
                (applyStaged
                   (flat_map (fun q => stage1 (findByName (name q) st) q) props)
                   st)) p) l = []) as H.
  { induction l as [|p l IH]; intros Hincl; [reflexivity|].
    cbn [flat_map]. rewrite IH by (intros x Hx; apply Hincl; now right).
    rewrite app_nil_r.
    rewrite (@applyStaged_find (fun q => findByName (name q) st) props st p Hnd)
      by (apply Hincl; now left).
    apply stage1_after. }
  apply H. apply incl_refl.
Qed.

(** C2. When [find] returns an existing property for the new property's
    name and both are TextChoices, the pass over that property appends to
    the existing choices, kept in order, exactly the new choices whose
    name is not among the existing names; it stages nothing when nothing
    was appended, and otherwise one update whose [typeArgs] keeps the
    further fields of the existing [typeArgs], holds the merged choices
    and has [subType: "multi"]. *)
Theorem stage_merges_choices
  (schema : list PropDef) (prop : Property) (existingProp : PropDef) :
  findByName (name prop) schema = Some existingProp ->
  type prop = TextChoices -> def_type existingProp = TextChoices ->
  let existingChoices := choicesOf (def_typeArgs existingProp) in
  let appended := pushed existingChoices (choicesOf (typeArgs prop)) in
  (forall nc,
     In nc appended <->
     In nc (choicesOf (typeArgs prop)) /\ ~ In (n nc) (map n existingChoices)) /\
  stage schema [prop] =
    match appended with
    | [] => []
    | _ :: _ =>
        [mkPropDef (name prop) TextChoices
           (Some (mkTypeArgs (Some (js "multi"))
                    (Some (existingChoices ++ appended))
                    (match def_typeArgs existingProp with
                     | Some a => others a
                     | None => []
                     end)))]
    end.
Proof.
  intros Hfind Hty Hex. cbv zeta. split; [intros nc; apply pushed_In|].
  rewrite stage_nodup by (repeat constructor; intros []).
  cbn [flat_map]. rewrite app_nil_r, Hfind. unfold stage1.
  rewrite Hty, Hex. simpl andb. cbv iota.
  destruct (pushed _ _); reflexivity.
Qed.

(** The spec's example: existing choice [fiction], new value
    ["fiction nonfiction"]. *)
Definition genreSchema : list PropDef :=
  [mkPropDef (js "genre") TextChoices
     (Some (mkTypeArgs None (Some [mkChoice (js "fiction") []])
                       [(js "icon", js "ti ti-tag")]))].

Definition genreProp : Property :=
  Normalizer.formatProperty Normalizer.noDate Normalizer.nanFloat
    Normalizer.asciiLower
    (mkProperty (js "genre") TextChoices (VString (js "fiction nonfiction")) None).

Lemma stage_merges_choices_witness :
  stage genreSchema [genreProp]
  = [mkPropDef (js "genre") TextChoices
       (Some (mkTypeArgs (Some (js "multi"))
                (Some [mkChoice (js "fiction") []; mkChoice (js "nonfiction") []])
                [(js "icon", js "ti ti-tag")]))].
Proof.
  exact (proj2 (@stage_merges_choices genreSchema genreProp
                  (mkPropDef (js "genre") TextChoices
                     (Some (mkTypeArgs None (Some [mkChoice (js "fiction") []])
                                       [(js "icon", js "ti ti-tag")])))
                  eq_refl eq_refl eq_refl)).
Defined.

(** A pass against the store: nothing happens without a tag block or
    without staged changes; otherwise one command is issued. *)
Lemma storeSync_run id props w :
  storeSync id props w =
  (Ok tt,
   match block w with
   | None => w
   | Some _ =>
       match stage (schemaOf w) props with
       | [] => w
       | d :: l =>
           mkStore (Some (mkTagBlock (Some (applyStaged (d :: l) (schemaOf w)))))
                   (commands w ++ [d :: l])
       end
   end).
Proof.
  unfold storeSync, syncTagSchema, try_await, await, store_get_block, ret, jsonCopy.
  destruct w as [[tb|] cmds]; cbn [block]; [|reflexivity].
  unfold schemaOf at 1. cbn [block].
  destruct (stage _ props); reflexivity.
Qed.

(** C1, as the code has it. For properties of pairwise distinct names:
    once the first pass has run against the store, a second pass with the
    same properties stages nothing, issues no command and leaves the
    store as it was. *)
Theorem syncTagSchema_idempotent (id : Z) (props : list Property) (w : Store) :
  NoDup (map name props) ->
  let w1 := snd (storeSync id props w) in
  (block w <> None -> stage (schemaOf w1) props = []) /\
  storeSync id props w1 = (Ok tt, w1).
Proof.
  intros Hnd. cbv zeta.
  assert (block w <> None ->
          stage (schemaOf (snd (storeSync id props w))) props = []) as Hstage.
  { intros Hb. rewrite storeSync_run. cbn [snd].
    destruct (block w); [|congruence].
    destruct (stage (schemaOf w) props) as [|d l] eqn:Es; [exact Es|].
    unfold schemaOf at 1. cbn [block properties].
    rewrite <- Es. now apply stage_twice. }
  split; [exact Hstage|].
  rewrite (storeSync_run id props (snd (storeSync id props w))).
  f_equal.
  destruct (block (snd (storeSync id props w))) eqn:Eb; [|reflexivity].
  rewrite Hstage; [reflexivity|].
  intros Hn. rewrite storeSync_run in Eb. cbn [snd] in Eb.
  rewrite Hn in Eb. congruence.
Qed.

(** *** Runs against the store *)

Definition titleProp : Property :=
  mkProperty (js "title") Text (VString (js "Dune")) None.

Definition genreStore : Store :=
  mkStore (Some (mkTagBlock (Some genreSchema))) [].

Example storeSync_first_pass :
  snd (storeSync 1 [genreProp; titleProp] genreStore)
  = mkStore
      (Some (mkTagBlock (Some
         [mkPropDef (js "genre") TextChoices
            (Some (mkTypeArgs (Some (js "multi"))
                     (Some [mkChoice (js "fiction") [];
                            mkChoice (js "nonfiction") []])
                     [(js "icon", js "ti ti-tag")]));
          mkPropDef (js "title") Text None])))
      [[mkPropDef (js "genre") TextChoices
          (Some (mkTypeArgs (Some (js "multi"))
                   (Some [mkChoice (js "fiction") [];
                          mkChoice (js "nonfiction") []])
                   [(js "icon", js "ti ti-tag")]));
        mkPropDef (js "title") Text None]].
Proof. reflexivity. Qed.

Lemma syncTagSchema_idempotent_witness :
  (block genreStore <> None ->
   stage (schemaOf (snd (storeSync 1 [genreProp; titleProp] genreStore)))
         [genreProp; titleProp] = []) /\
  storeSync 1 [genreProp; titleProp]
            (snd (storeSync 1 [genreProp; titleProp] genreStore))
  = (Ok tt, snd (storeSync 1 [genreProp; titleProp] genreStore)).
Proof.
  apply (@syncTagSchema_idempotent 1 [genreProp; titleProp] genreStore).
  constructor.
  - intros [H | []]. discriminate H.
  - constructor; [intros [] | constructor].
Defined.

(** Two formatted properties of one name, and a tag block whose schema is
    still empty. *)
Definition shelfX : Property :=
  Normalizer.formatProperty Normalizer.noDate Normalizer.nanFloat
    Normalizer.asciiLower
    (mkProperty (js "shelf") TextChoices (VString (js "x")) None).

Definition shelfY : Property :=
  Normalizer.formatProperty Normalizer.noDate Normalizer.nanFloat
    Normalizer.asciiLower
    (mkProperty (js "shelf") TextChoices (VString (js "y")) None).

Definition emptyStore : Store := mkStore (Some (mkTagBlock (Some []))) [].

Definition afterFirstPass : Store := snd (storeSync 1 [shelfX; shelfY] emptyStore).

Definition afterSecondPass : Store := snd (storeSync 1 [shelfX; shelfY] afterFirstPass).

(** C1 as stated fails when two properties share a name: the first pass
    adds both and leaves the choices of the second in the schema; the
    second pass then merges the choice of the first, issues a second
    command and changes the schema. *)
Lemma syncTagSchema_duplicate_names :
  schemaOf afterFirstPass
  = [mkPropDef (js "shelf") TextChoices
       (Some (mkTypeArgs (Some (js "multi")) (Some [mkChoice (js "y") []]) []))] /\
  stage (schemaOf afterFirstPass) [shelfX; shelfY]
  = [mkPropDef (js "shelf") TextChoices
       (Some (mkTypeArgs (Some (js "multi"))
                (Some [mkChoice (js "y") []; mkChoice (js "x") []]) []))] /\
  List.length (commands afterFirstPass) = 1 /\
  List.length (commands afterSecondPass) = 2 /\
  schemaOf afterSecondPass
  = [mkPropDef (js "shelf") TextChoices
       (Some (mkTypeArgs (Some (js "multi"))
                (Some [mkChoice (js "y") []; mkChoice (js "x") []]) []))].
Proof. repeat split. Qed.

End Reconciler.

(* ===================================================================== *)
(** ** Further properties: [cleanUrl] *)
(* ===================================================================== *)

Module CleanUrl.

Import Extraction.

Definition question : N := 63.
Definition hash : N := 35.

Lemma span_all f s :
  Forall (fun ch => f ch = true) s -> span f s = (s, []).
Proof.
  induction 1 as [|ch s Hc _ IH]; simpl; [reflexivity|].
  now rewrite Hc, IH.
Qed.

Lemma neqb_In (x : N) s :
  Forall (fun ch => negb (ch =? x)%N = true) s <-> ~ In x s.
Proof.
  rewrite Forall_forall. split.
  - intros H Hin. specialize (H _ Hin). now rewrite N.eqb_refl in H.
  - intros H ch Hin. apply negb_true_iff, N.eqb_neq. intros ->. now apply H.
Qed.

Lemma cleanUrl_free url :
  ~ In question (cleanUrl url) /\ ~ In hash (cleanUrl url).
Proof.
  unfold cleanUrl.
  destruct (span (fun ch => negb (ch =? 63)%N) url) as [a b] eqn:E1.
  destruct (span_spec _ _ E1) as (-> & Ha & _). cbn [fst].
  destruct (span (fun ch => negb (ch =? 35)%N) a) as [a' b'] eqn:E2.
  destruct (span_spec _ _ E2) as (-> & Ha' & _). cbn [fst].
  apply Forall_app in Ha as [Ha _].
  split; now apply neqb_In.
Qed.

Lemma cleanUrl_fixed url :
  ~ In question url -> ~ In hash url -> cleanUrl url = url.
Proof.
  intros Hq Hh. unfold cleanUrl.
  rewrite (span_all (fun ch => negb (ch =? 63)%N)) by now apply neqb_In.
  cbn [fst]. rewrite (span_all (fun ch => negb (ch =? 35)%N)) by now apply neqb_In.
  reflexivity.
Qed.

(** X1. [cleanUrl] returns a prefix of the URL that holds neither [?]
    nor [#], and the URL goes on after it with one of the two or not at
    all: it cuts at the first [?] or [#]. *)
Theorem cleanUrl_cuts (url : jsstring) :
  exists rest,
    url = cleanUrl url ++ rest /\
    ~ In question (cleanUrl url) /\ ~ In hash (cleanUrl url) /\
    match rest with
    | [] => True
    | ch :: _ => ch = question \/ ch = hash
    end.
Proof.
  pose proof (cleanUrl_free url) as [Hq Hh]. revert Hq Hh. unfold cleanUrl.
  destruct (span (fun ch => negb (ch =? 63)%N) url) as [a b] eqn:E1.
  destruct (span_spec _ _ E1) as (-> & _ & Hb). cbn [fst].
  destruct (span (fun ch => negb (ch =? 35)%N) a) as [a' b'] eqn:E2.
  destruct (span_spec _ _ E2) as (-> & _ & Hb'). cbn [fst]. intros Hq Hh.
  exists (b' ++ b). rewrite app_assoc. split; [reflexivity|].
  split; [exact Hq | split; [exact Hh|]].
  destruct b' as [|ch b']; simpl.
  - destruct b as [|ch b]; [exact I|]. left.
    apply negb_false_iff, N.eqb_eq in Hb. exact Hb.
  - right. apply negb_false_iff, N.eqb_eq in Hb'. exact Hb'.
Qed.

(** X2. Cleaning twice is cleaning once, and the URLs that [cleanUrl]
    leaves as they are are exactly those without [?] and [#]. *)
Theorem cleanUrl_idempotent (url : jsstring) :
  cleanUrl (cleanUrl url) = cleanUrl url /\
  (cleanUrl url = url <-> ~ In question url /\ ~ In hash url).
Proof.
  pose proof (cleanUrl_free url) as [Hq Hh].
  split; [now apply cleanUrl_fixed|]. split.
  - intros E. rewrite E in Hq, Hh. now split.
  - intros [H1 H2]. now apply cleanUrl_fixed.
Qed.

Example cleanUrl_query_and_fragment :
  cleanUrl (js "https://book.douban.com/subject/1/?from=tag#top")
  = js "https://book.douban.com/subject/1/".
Proof. reflexivity. Qed.

Example cleanUrl_fragment_first :
  cleanUrl (js "https://a.example/x#sec?y=1") = js "https://a.example/x".
Proof. reflexivity. Qed.

End CleanUrl.

(* ===================================================================== *)
(** ** Further properties: [matchRule] *)
(* ===================================================================== *)

Module RuleFacts.

Import RuleMatcher.

Lemma lastIndexOf_from_absent ch s i acc :
  ~ In ch s -> lastIndexOf_from ch s i acc = acc.
Proof.
  revert i acc. induction s as [|x s IH]; intros i acc H; simpl; [reflexivity|].
  destruct (x =? ch)%N eqn:E.
  - apply N.eqb_eq in E. exfalso. apply H. now left.
  - apply IH. intros Hin. apply H. now right.
Qed.

Lemma lastIndexOf_from_last ch a b i acc :
  ~ In ch b ->
  lastIndexOf_from ch (a ++ ch :: b) i acc = (i + Z.of_nat (List.length a))%Z.
Proof.
  intros Hb. revert i acc. induction a as [|x a IH]; intros i acc; simpl.
  - rewrite N.eqb_refl. rewrite lastIndexOf_from_absent by exact Hb. lia.
  - rewrite IH. lia.
Qed.

Lemma skipn_past (a b : jsstring) x :
  skipn (List.length a + 1) (a ++ x :: b) = b.
Proof. induction a as [|y a IH]; simpl; [reflexivity | exact IH]. Qed.

Section Engine.

Variable RegExp : Type.
Variable RegExp_new : jsstring -> jsstring -> result RegExp.
Variable RegExp_test : RegExp -> jsstring -> bool.

(** X3. The literal form is taken apart at its last slash: for flags
    that hold no slash, [/body/flags] is compiled as the pattern [body]
    with the flags [flags], whatever slashes [body] holds, also when
    [body] or [flags] is empty. *)
Theorem compilePattern_literal (body flags : jsstring) :
  ~ In slash flags ->
  compilePattern RegExp_new ([slash] ++ body ++ [slash] ++ flags)
  = RegExp_new body flags.
Proof.
  intros Hf. unfold compilePattern.
  assert (lastIndexOf slash ([slash] ++ body ++ [slash] ++ flags)
          = (1 + Z.of_nat (List.length body))%Z) as Hlast.
  { unfold lastIndexOf.
    change ([slash] ++ body ++ [slash] ++ flags)
      with ((slash :: body) ++ slash :: flags).
    rewrite lastIndexOf_from_last by exact Hf. simpl List.length. lia. }
  rewrite Hlast.
  replace (startsWith [slash] ([slash] ++ body ++ [slash] ++ flags)) with true
    by reflexivity.
  replace (1 + Z.of_nat (List.length body) >? 0)%Z with true
    by (symmetry; apply Z.gtb_lt; lia).
  cbv zeta. simpl andb. cbv iota. f_equal.
  - unfold substring.
    replace (Z.to_nat (1 + Z.of_nat (List.length body) - 1)) with (List.length body) by lia.
    change (Z.to_nat 1) with 1%nat. simpl skipn.
    now rewrite firstn_app, firstn_all, Nat.sub_diag, app_nil_r.
  - replace (Z.to_nat (1 + Z.of_nat (List.length body) + 1))
      with (S (List.length body + 1)) by lia.
    change ([slash] ++ body ++ [slash] ++ flags)
      with (slash :: body ++ slash :: flags).
    cbn [skipn]. apply skipn_past.
Qed.

(** X4. [matchRule] returns none exactly when no rule of the list is
    enabled with a pattern that compiles and matches the URL; a rule it
    returns is a rule of the list and is enabled. *)
Theorem matchRule_result (url : jsstring) (rules : list Rule) :
  (matchRule RegExp_new RegExp_test url rules = Ok None <->
   forall r, In r rules -> ~ Matches RegExp_new RegExp_test url r) /\
  (forall r,
     matchRule RegExp_new RegExp_test url rules = Ok (Some r) ->
     In r rules /\ enabled r = true).
Proof.
  destruct (matchRule_first RegExp_new RegExp_test url rules)
    as [(pre & r0 & post & Hm & -> & HM & Hpre) | [Hm Hall]].
  - split.
    + split; [congruence|]. intros H. exfalso.
      apply (H r0); [apply in_elt | exact HM].
    + intros r Hr. rewrite Hm in Hr. injection Hr as <-.
      split; [apply in_elt | apply HM].
  - split.
    + split; [|intros _; exact Hm]. intros _. now apply Forall_forall.
    + intros r Hr. congruence.
Qed.

End Engine.

Lemma compilePattern_literal_witness :
  compilePattern RegExpFragment.RegExp_new
    ([slash] ++ js "book\.douban\.com\/subject\/" ++ [slash] ++ js "i")
  = RegExpFragment.RegExp_new (js "book\.douban\.com\/subject\/") (js "i").
Proof.
  apply (@compilePattern_literal _ RegExpFragment.RegExp_new
           (js "book\.douban\.com\/subject\/") (js "i")).
  intros [H | []]. discriminate H.
Defined.

(** A disabled rule is passed over although its pattern matches. *)
Example matchRule_disabled :
  fragmentMatchRule doubanUrl
    [mkRule (js "Off") false (js ".*") (js "Bookmark") false []; doubanRule]
  = Ok (Some doubanRule).
Proof. reflexivity. Qed.

Example matchRule_empty : fragmentMatchRule doubanUrl [] = Ok None.
Proof. reflexivity. Qed.

End RuleFacts.

(* ===================================================================== *)
(** ** Further properties: the formatter *)
(* ===================================================================== *)

Module NormalizerFacts.

Import Normalizer.

Lemma trimStart_split s :
  exists pre, s = pre ++ trimStart s /\
    Forall (fun ch => isWhiteSpace ch = true) pre /\
    match trimStart s with
    | ch :: _ => isWhiteSpace ch = false
    | [] => True
    end.
Proof.
  induction s as [|ch s (pre & Hs & Hpre & Hhead)]; simpl.
  - exists []. repeat split. constructor.
  - destruct (isWhiteSpace ch) eqn:E.
    + exists (ch :: pre). simpl. rewrite <- Hs. repeat split; [now constructor | exact Hhead].
    + exists []. repeat split; [constructor | exact E].
Qed.

(** [x] is [y] without the white space at its two ends. *)
Definition TrimOf (y x : jsstring) : Prop :=
  exists pre post,
    y = pre ++ x ++ post /\
    Forall (fun ch => isWhiteSpace ch = true) pre /\
    Forall (fun ch => isWhiteSpace ch = true) post /\
    (forall ch rest, x = ch :: rest -> isWhiteSpace ch = false) /\
    (forall ch front, x = front ++ [ch] -> isWhiteSpace ch = false).

(** What [trim] returns is its argument without the white space at its
    two ends. *)
Lemma trim_spec y : TrimOf y (trim y).
Proof.
  unfold trim, trimEnd.
  destruct (trimStart_split y) as (pre & Hs & Hpre & Hhead).
  destruct (trimStart_split (rev (trimStart y))) as (post & Hr & Hpost & Hlast).
  set (t := trimStart y) in *. set (u := trimStart (rev t)) in *.
  assert (t = rev u ++ rev post) as Ht.
  { rewrite <- rev_app_distr, <- Hr. now rewrite rev_involutive. }
  exists pre, (rev post). split; [now rewrite <- Ht|].
  split; [exact Hpre|]. split; [now apply Forall_rev|]. split.
  - intros ch rest E. rewrite Ht, E in Hhead. exact Hhead.
  - intros ch front E. apply (f_equal (@rev N)) in E.
    rewrite rev_involutive, rev_app_distr in E. simpl in E.
    now rewrite E in Hlast.
Qed.

(** The pieces joined by single spaces: [pieces.join(" ")]. *)
Fixpoint join_space (pieces : list jsstring) : jsstring :=
  match pieces with
  | [] => []
  | [x] => x
  | x :: rest => x ++ 32%N :: join_space rest
  end.

Lemma split_space_aux_pieces s cur :
  ~ In 32%N cur ->
  Forall (fun x => ~ In 32%N x) (split_space_aux s cur).
Proof.
  revert cur. induction s as [|ch s IH]; intros cur Hc; simpl.
  - constructor; [|constructor]. now rewrite <- in_rev.
  - destruct (ch =? 32)%N eqn:E.
    + constructor; [now rewrite <- in_rev|]. apply IH. intros [].
    + apply IH. intros [Heq | Hin]; [|now apply Hc].
      subst ch. discriminate E.
Qed.

Lemma split_space_aux_nonempty s cur : split_space_aux s cur <> [].
Proof.
  revert cur. induction s as [|ch s IH]; intros cur; simpl; [discriminate|].
  destruct (ch =? 32)%N; [discriminate | apply IH].
Qed.

Lemma split_space_aux_join s cur :
  join_space (split_space_aux s cur) = rev cur ++ s.
Proof.
  revert cur. induction s as [|ch s IH]; intros cur; simpl.
  - now rewrite app_nil_r.
  - destruct (ch =? 32)%N eqn:E.
    + apply N.eqb_eq in E. subst ch.
      pose proof (split_space_aux_nonempty s []) as Hne.
      specialize (IH []).
      destruct (split_space_aux s []) as [|x rest]; [congruence|].
      change (join_space (rev cur :: x :: rest))
        with (rev cur ++ 32%N :: join_space (x :: rest)).
      rewrite IH. reflexivity.
    + rewrite IH. simpl. now rewrite <- app_assoc.
Qed.

Section Host.

Variable parseDate : jsstring -> option Z.
Variable parseFloat : jsstring -> spec_float.
Variable toLowerCase : jsstring -> jsstring.

(** X5. Formatting is idempotent: a formatted property is formatted to
    itself, whatever its type, value and typeArgs. *)
Theorem formatProperty_idempotent (item : Property) :
  formatProperty parseDate parseFloat toLowerCase
    (formatProperty parseDate parseFloat toLowerCase item)
  = formatProperty parseDate parseFloat toLowerCase item.
Proof.
  destruct item as [nm ty v ta].
  destruct ty, v; destruct ta as [[[[|c0 s0]|] [ch|] [|o ot]]|];
    unfold Normalizer.formatProperty, convert; simpl; try reflexivity;
    destruct (parseDate s) eqn:E; simpl; rewrite ?E; reflexivity.
Qed.

(** X6. The choices taken from a string value are its pieces between
    single spaces, each without the white space at its ends, without
    those that are then empty, in their order, duplicates kept: the
    string is its pieces joined by single spaces, no piece holds a
    space, and the choices are the trimmed pieces that are not empty.
    So no choice is empty, holds a space, or starts or ends with white
    space. *)
Theorem choicesValues_pieces (s : jsstring) :
  exists pieces,
    s = join_space pieces /\
    Forall (fun y => ~ In 32%N y) pieces /\
    Forall (fun y => TrimOf y (trim y)) pieces /\
    choicesValues (VString s) = filter nonempty (map trim pieces) /\
    Forall
      (fun x =>
         x <> [] /\ ~ In 32%N x /\
         (forall ch rest, x = ch :: rest -> isWhiteSpace ch = false) /\
         (forall ch front, x = front ++ [ch] -> isWhiteSpace ch = false))
      (choicesValues (VString s)).
Proof.
  exists (split_space s).
  pose proof (@split_space_aux_pieces s [] (fun H => H)) as Hall.
  fold (split_space s) in Hall.
  split; [unfold split_space; now rewrite split_space_aux_join|].
  split; [exact Hall|].
  split; [apply Forall_forall; intros y _; apply trim_spec|].
  split; [reflexivity|].
  unfold choicesValues. apply Forall_forall. intros x Hx.
  apply filter_In in Hx as [Hx Hne]. apply in_map_iff in Hx as (y & <- & Hy).
  rewrite Forall_forall in Hall. specialize (Hall y Hy).
  destruct (trim_spec y) as (pre & post & Hsplit & _ & _ & Hhead & Hlast).
  split; [|split; [|split]].
  - destruct (trim y); [discriminate | discriminate].
  - intros Hin. apply Hall. rewrite Hsplit.
    apply in_or_app. right. apply in_or_app. now left.
  - exact Hhead.
  - exact Hlast.
Qed.

(** X7. A DateTime property always leaves the formatter with a
    non-empty [subType]: its own when it has one, ["datetime"]
    otherwise; its other typeArgs fields are kept. *)
Theorem formatProperty_DateTime_subType
  (nm : jsstring) (v : jsvalue) (supplied : option TypeArgs) :
  let given := match supplied with Some ta => ta | None => emptyTypeArgs end in
  exists ta,
    typeArgs (formatProperty parseDate parseFloat toLowerCase
                (mkProperty nm DateTime v supplied)) = Some ta /\
    subType ta =
      match subType given with
      | Some (ch :: t) => Some (ch :: t)
      | _ => Some (js "datetime")
      end /\
    choices ta = choices given /\ others ta = others given.
Proof.
  cbv zeta. unfold Normalizer.formatProperty. simpl.
  destruct supplied as [[[[|c0 s0]|] ch ot]|]; simpl; eexists; repeat split.
Qed.

(** The formatter keeps the list as it is in length and order, and
    every property keeps its name and its type. *)
Lemma formatProperties_frame (processed : list Property) :
  let formatted := formatProperties parseDate parseFloat toLowerCase processed in
  List.length formatted = List.length processed /\
  map name formatted = map name processed /\
  map type formatted = map type processed.
Proof.
  cbv zeta. unfold Normalizer.formatProperties. split; [apply length_map|].
  rewrite !map_map. split; apply map_ext; intros item;
    unfold Normalizer.formatProperty;
    destruct (PropType_eqb (type item) TextChoices); reflexivity.
Qed.

End Host.

(** Duplicates in a string value are kept. *)
Example choicesValues_duplicates :
  choicesValues (VString (js " sci-fi  classic sci-fi "))
  = [js "sci-fi"; js "classic"; js "sci-fi"].
Proof. reflexivity. Qed.

(** Only U+0020 separates: a tab stays inside its piece. *)
Example choicesValues_tab :
  choicesValues (VString [97; 9; 98; 32; 99]%N) = [[97; 9; 98]%N; [99%N]].
Proof. reflexivity. Qed.

End NormalizerFacts.

(* ===================================================================== *)
(** ** Further properties: the asset resolver *)
(* ===================================================================== *)

Module AssetsFacts.

Import Assets.

Lemma span_stop f (a b : jsstring) x :
  Forall (fun ch => f ch = true) a -> f x = false ->
  span f (a ++ x :: b) = (a, x :: b).
Proof.
  intros Ha Hx. induction Ha as [|ch a Hc _ IH]; simpl.
  - now rewrite Hx.
  - now rewrite Hc, IH.
Qed.

Lemma strip_prefix_app p r : strip_prefix p (p ++ r) = Some r.
Proof.
  unfold strip_prefix.
  replace (startsWith p (p ++ r)) with true
    by (symmetry; apply startsWith_app; now exists r).
  now rewrite skipn_app, skipn_all, Nat.sub_diag.
Qed.

(** X9. The inline-image pattern matches exactly the strings
    [data:image/<m>;base64,<d>] with [m] non-empty and free of
    semicolons, [d] non-empty and free of line terminators, and then
    yields [image/<m>] and [d]. *)
Theorem match_data_uri_iff (s contentType base64Data : jsstring) :
  match_data_uri s = Some (contentType, base64Data) <->
  exists m,
    s = js "data:" ++ contentType ++ js ";base64," ++ base64Data /\
    contentType = js "image/" ++ m /\ m <> [] /\
    Forall (fun ch => ch <> 59%N) m /\
    base64Data <> [] /\
    Forall (fun ch => isLineTerminator ch = false) base64Data.
Proof.
  split; [apply match_data_uri_some|].
  intros (m & -> & -> & Hm & Hsemi & Hd & Hlt).
  unfold match_data_uri.
  replace (js "data:" ++ (js "image/" ++ m) ++ js ";base64," ++ base64Data)
    with (js "data:image/" ++ m ++ 59%N :: js "base64," ++ base64Data)
    by (rewrite <- (app_assoc (js "image/") m); reflexivity).
  rewrite strip_prefix_app.
  rewrite (span_stop (fun ch => negb (ch =? 59)%N)); [| |reflexivity].
  - destruct m as [|m0 m]; [congruence|].
    change (59%N :: js "base64," ++ base64Data)
      with (js ";base64," ++ base64Data).
    rewrite strip_prefix_app.
    destruct base64Data as [|d0 d]; [congruence|].
    replace (forallb (fun ch => negb (isLineTerminator ch)) (d0 :: d)) with true;
      [reflexivity|].
    symmetry. apply forallb_forall. intros ch Hin.
    rewrite Forall_forall in Hlt. now rewrite (Hlt ch Hin).
  - eapply Forall_impl; [|exact Hsemi]. intros ch Hc.
    now apply negb_true_iff, N.eqb_neq.
Qed.

Section Host.

Variable World : Type.
Variable atob : jsstring -> result jsstring.
Variable upload_asset_binary : jsstring -> list N -> M World (option jsstring).
Variable upload_asset_url : jsstring -> M World (option jsstring).
Variable fetch : jsstring -> M World (Response World).

Lemma shouldResolve_off item : shouldResolve false item = None.
Proof. unfold shouldResolve. destruct (value item); reflexivity. Qed.

(** X10. When cover download is not requested, the resolver hands the
    properties back as they are and leaves the world alone: no upload,
    no fetch. *)
Theorem processProperties_not_requested_identity
  (metadata : list Property) (w : World) :
  processProperties atob upload_asset_binary upload_asset_url fetch
    metadata false w
  = (Ok metadata, w).
Proof.
  unfold processProperties.
  induction metadata as [|item rest IH]; simpl; [reflexivity|].
  unfold await at 1. unfold processItem at 1.
  rewrite shouldResolve_off. unfold await at 1, ret at 1. unfold ret at 1.
  unfold await at 1. rewrite IH. unfold ret. destruct item; reflexivity.
Qed.

(** X11. An inline image that matches the pattern, decodes and is
    stored under a non-empty reference gets that reference as its
    value; the bytes uploaded are the decoded characters, under the
    content type of the data URI, and nothing else is called. *)
Theorem processItem_inline_image
  (downloadCover : bool) (item : Property)
  (s contentType base64Data binaryData u : jsstring) (w w' : World) :
  shouldResolve downloadCover item = Some s ->
  match_data_uri s = Some (contentType, base64Data) ->
  atob base64Data = Ok binaryData ->
  upload_asset_binary contentType (toBytes binaryData) w = (Ok (Some u), w') ->
  u <> [] ->
  processItem atob upload_asset_binary upload_asset_url fetch
    downloadCover item w
  = (Ok (mkProperty (name item) (type item) (VString u) (typeArgs item)), w').
Proof.
  intros Hg Hm Ha Hu Hne.
  assert (startsWith (js "data:") s = true) as Hd.
  { apply match_data_uri_some in Hm as (m & -> & _). apply startsWith_app. eauto. }
  unfold processItem. rewrite Hg, Hd.
  unfold resolveBase64. rewrite Hm.
  unfold await, try_await, lift, ret. rewrite Ha, Hu.
  destruct u; [congruence | reflexivity].
Qed.

(** X12. A remote image that the store takes by reference gets the
    answered reference as its value, and the world is as that one call
    left it: the image is not fetched. *)
Theorem processItem_remote_by_reference
  (downloadCover : bool) (item : Property) (s u : jsstring) (w w' : World) :
  shouldResolve downloadCover item = Some s ->
  startsWith (js "data:") s = false ->
  upload_asset_url s w = (Ok (Some u), w') ->
  u <> [] ->
  processItem atob upload_asset_binary upload_asset_url fetch
    downloadCover item w
  = (Ok (mkProperty (name item) (type item) (VString u) (typeArgs item)), w').
Proof.
  intros Hg Hd Hu Hne. unfold processItem. rewrite Hg, Hd.
  unfold resolveRemote, await, try_await, ret. rewrite Hu.
  destruct u; [congruence | reflexivity].
Qed.

(** X13. When the upload by reference rejects or answers nothing, the
    image is fetched and its bytes are uploaded under the content type
    of the response, or [image/png] when the response names none; a
    non-empty answer becomes the value. *)
Theorem processItem_remote_fallback
  (downloadCover : bool) (item : Property) (s u : jsstring)
  (r : result (option jsstring)) (response : Response World) (blob : list N)
  (w w1 w2 w3 w4 : World) :
  shouldResolve downloadCover item = Some s ->
  startsWith (js "data:") s = false ->
  upload_asset_url s w = (r, w1) ->
  (forall ch t, r <> Ok (Some (ch :: t))) ->
  fetch s w1 = (Ok response, w2) -> ok response = true ->
  arrayBuffer response w2 = (Ok blob, w3) ->
  upload_asset_binary
    (match content_type response with
     | Some (ch :: t) => ch :: t
     | _ => js "image/png"
     end) blob w3 = (Ok (Some u), w4) ->
  u <> [] ->
  processItem atob upload_asset_binary upload_asset_url fetch
    downloadCover item w
  = (Ok (mkProperty (name item) (type item) (VString u) (typeArgs item)), w4).
Proof.
  intros Hg Hd Hu Hr Hf Hok Hb Hup Hne.
  assert (fetchAndUpload upload_asset_binary fetch s w1 = (Ok (VString u), w4))
    as Hfall.
  { unfold fetchAndUpload, await. rewrite Hf, Hok, Hb.
    unfold contentTypeOf. rewrite Hup. unfold ret.
    destruct u; [congruence | reflexivity]. }
  assert (resolveRemote upload_asset_binary upload_asset_url fetch s w
          = (Ok (VString u), w4)) as Hres.
  { unfold resolveRemote, try_await, await. rewrite Hu.
    destruct r as [[[|ch t]|]|e]; unfold throw; try exact Hfall.
    now destruct (Hr ch t). }
  unfold processItem. rewrite Hg, Hd.
  unfold await, try_await. rewrite Hres. reflexivity.
Qed.

End Host.

(** *** Hosts to run the three ways on *)

Definition ref_upload_url (url : jsstring) : M nat (option jsstring) :=
  fun w => (Ok (Some (js "assets/s1.jpg")), S w).

Definition none_upload_url (url : jsstring) : M nat (option jsstring) :=
  fun w => (Ok None, S w).

Definition jpeg_fetch (url : jsstring) : M nat (Response nat) :=
  fun w => (Ok (mkResponse true (fun w' => (Ok [255; 216; 255]%N, w')) None), S w).

Definition png_upload_binary (contentType : jsstring) (buffer : list N)
  : M nat (option jsstring) :=
  fun w =>
    (Ok (if jseqb contentType (js "image/png")
         then Some (js "assets/fetched.png") else None), S w).

Lemma processItem_inline_image_witness :
  processItem demo_atob demo_upload_binary demo_upload_url demo_fetch
    true (cover (js "data:image/png;base64,iVBORw0KGgo=")) 0
  = (Ok (cover (js "assets/cover.png")), 1).
Proof.
  apply (@processItem_inline_image nat demo_atob demo_upload_binary
           demo_upload_url demo_fetch true
           (cover (js "data:image/png;base64,iVBORw0KGgo="))
           (js "data:image/png;base64,iVBORw0KGgo=") (js "image/png")
           (js "iVBORw0KGgo=") (js "iVBORw0KGgo=") (js "assets/cover.png") 0 1);
    try reflexivity.
  discriminate.
Defined.

Lemma processItem_remote_by_reference_witness :
  processItem demo_atob demo_upload_binary ref_upload_url demo_fetch
    true (cover (js "https://img.example/s1.jpg")) 0
  = (Ok (cover (js "assets/s1.jpg")), 1).
Proof.
  apply (@processItem_remote_by_reference nat demo_atob demo_upload_binary
           ref_upload_url demo_fetch true
           (cover (js "https://img.example/s1.jpg"))
           (js "https://img.example/s1.jpg") (js "assets/s1.jpg") 0 1);
    try reflexivity.
  discriminate.
Defined.

Lemma processItem_remote_fallback_witness :
  processItem demo_atob png_upload_binary none_upload_url jpeg_fetch
    true (cover (js "https://img.example/s1.jpg")) 0
  = (Ok (cover (js "assets/fetched.png")), 3).
Proof.
  apply (@processItem_remote_fallback nat demo_atob png_upload_binary
           none_upload_url jpeg_fetch true
           (cover (js "https://img.example/s1.jpg"))
           (js "https://img.example/s1.jpg") (js "assets/fetched.png")
           (Ok None)
           (mkResponse true (fun w' => (Ok [255; 216; 255]%N, w')) None)
           [255; 216; 255]%N 0 1 2 2 3);
    try reflexivity; discriminate.
Defined.

End AssetsFacts.

(* ===================================================================== *)
(** ** Further properties: static extraction *)
(* ===================================================================== *)

Module ExtractionFacts.

Import Extraction.

Section Host.

Variable World : Type.
Variable Document : Type.
Variable isValidUrl : jsstring -> bool.
Variable fetch : jsstring -> M World (Response World).
Variable parseFromString : jsstring -> Document.
Variable getAttribute : Document -> jsstring -> jsstring -> option jsstring.
Variable textContent : Document -> jsstring -> option jsstring.
Variable runScript :
  jsstring -> Document -> jsstring -> list Property -> result scriptReturn.

(** X14. The outcomes of static extraction, in the order of its steps.
    An empty URL or one that [new URL] refuses: "Invalid URL", and the
    world is untouched (nothing is fetched).  A fetch that rejects: its
    error.  A response that is not [ok]: "HTTP error! status: " and the
    status in decimal, the body unread.  A body that cannot be read: its
    error.  A script that cannot be built or throws: its error.
    Otherwise extraction resolves, with the array the script returned,
    or with the empty list.  The script runs on the parsed body, the
    cleaned URL and the generic metadata of both. *)
Theorem extractMetadataStatic_outcomes
  (url : jsstring) (scriptLines : list jsstring) (w : World) :
  let run :=
    extractMetadataStatic isValidUrl fetch parseFromString getAttribute
      textContent runScript url scriptLines w in
  let valid := nonempty url && isValidUrl url in
  (valid = false /\ run = (Throw (Error (js "Invalid URL")), w)) \/
  (valid = true /\
   exists e w1, fetch url w = (Throw e, w1) /\ run = (Throw e, w1)) \/
  (valid = true /\
   exists response w1,
     fetch url w = (Ok response, w1) /\
     ((ok response = false /\
       run = (Throw (Error (js "HTTP error! status: "
                              ++ decimal (status response))), w1)) \/
      (ok response = true /\
       exists e w2, text response w1 = (Throw e, w2) /\ run = (Throw e, w2)) \/
      (ok response = true /\
       exists html w2,
         text response w1 = (Ok html, w2) /\
         match runScript (join_lines scriptLines) (parseFromString html)
                 (cleanUrl url)
                 (getGenericMetadata getAttribute textContent
                    (parseFromString html) (cleanUrl url)) with
         | Throw e => run = (Throw e, w2)
         | Ok (RetArray items) => run = (Ok items, w2)
         | Ok (RetOther _) => run = (Ok [], w2)
         end))).
Proof.
  cbv zeta. unfold extractMetadataStatic, try_await, await, throw, lift, ret.
  destruct (nonempty url); simpl; [|left; split; reflexivity].
  destruct (isValidUrl url); simpl; [|left; split; reflexivity].
  right. destruct (fetch url w) as [[response|e] w1];
    [right | left; split; [reflexivity | eauto]].
  split; [reflexivity|]. exists response, w1. split; [reflexivity|].
  destruct (ok response); simpl; [right | left; split; reflexivity].
  destruct (text response w1) as [[html|e] w2];
    [right | left; split; [reflexivity | eauto]].
  split; [reflexivity|]. exists html, w2. split; [reflexivity|].
  destruct (runScript _ _ _ _) as [[items|v]|e]; reflexivity.
Qed.

End Host.

(** *** Hosts to run the failures on *)

Definition notfound_fetch (url : jsstring) : M nat (Response nat) :=
  fun w => (Ok (mkResponse false 404 (fun w' => (Ok [], w'))), S w).

Definition offline_fetch (url : jsstring) : M nat (Response nat) :=
  fun w => (Throw (Error (js "Failed to fetch")), S w).

Example extract_http_error :
  extractMetadataStatic demo_isValidUrl notfound_fetch (fun html => html)
    (fun _ _ _ => None) (fun _ _ => None) demo_runScript
    (js "https://book.douban.com/subject/0/") [js "return baseMeta;"] 0
  = (Throw (Error (js "HTTP error! status: 404")), 1).
Proof. reflexivity. Qed.

Example extract_offline :
  extractMetadataStatic demo_isValidUrl offline_fetch (fun html => html)
    (fun _ _ _ => None) (fun _ _ => None) demo_runScript
    (js "https://book.douban.com/subject/0/") [js "return baseMeta;"] 0
  = (Throw (Error (js "Failed to fetch")), 1).
Proof. reflexivity. Qed.

(** A script that cannot be built: extraction rejects with its error. *)
Example extract_script_error :
  demo_extract (js "https://book.douban.com/subject/1/") [js "return ["] 0
  = (Throw (Error (js "SyntaxError")), 1).
Proof. reflexivity. Qed.

End ExtractionFacts.

(* ===================================================================== *)
(** ** The pipeline: [handleBlockExtraction] and [applyMetadataToBlock] *)
(* ===================================================================== *)

Module Pipeline.

Lemma await_ok {W A B} (m : M W A) (k : A -> M W B) w a w1 :
  m w = (Ok a, w1) -> await m k w = k a w1.
Proof. unfold await. now intros ->. Qed.

Lemma await_throw {W A B} (m : M W A) (k : A -> M W B) w e w1 :
  m w = (Throw e, w1) -> await m k w = (Throw e, w1).
Proof. unfold await. now intros ->. Qed.

Lemma try_rethrow {W A} (body : M W A) w :
  try_await body (fun error => throw error) w = body w.
Proof. unfold try_await, throw. now destruct (body w) as [[a|e] w1]. Qed.

(** [{ url, metadata, rule }] *)
Record ExtractionResult := mkResult {
  url : jsstring;
  metadata : list Property;
  rule : RuleMatcher.Rule
}.

(** Truthiness of a property value. *)
Definition truthy (v : jsvalue) : bool :=
  match v with
  | VUndefined | VNull => false
  | VBoolean b => b
  | VNumber x =>
      match x with
      | S754_zero _ | S754_nan => false
      | _ => true
      end
  | VString s => nonempty s
  | VDate _ | VArray _ => true
  end.

(** The name of the title property, and the brackets put around a
    title. *)
Definition titleName : jsstring := [26631; 39064]%N.
Definition openBracket : N := 12298.
Definition closeBracket : N := 12299.

Section Host.

Variable World : Type.

(** The regular expressions, the page and the script (see
    [RuleMatcher] and [Extraction]). *)
Variable RegExp : Type.
Variable RegExp_new : jsstring -> jsstring -> result RegExp.
Variable RegExp_test : RegExp -> jsstring -> bool.
Variable Document : Type.
Variable isValidUrl : jsstring -> bool.
Variable fetch_page : jsstring -> M World (Extraction.Response World).
Variable parseFromString : jsstring -> Document.
Variable getAttribute : Document -> jsstring -> jsstring -> option jsstring.
Variable textContent : Document -> jsstring -> option jsstring.
Variable runScript :
  jsstring -> Document -> jsstring -> list Property
  -> result Extraction.scriptReturn.

(** The asset store and the images (see [Assets]). *)
Variable atob : jsstring -> result jsstring.
Variable upload_asset_binary : jsstring -> list N -> M World (option jsstring).
Variable upload_asset_url : jsstring -> M World (option jsstring).
Variable fetch_image : jsstring -> M World (Assets.Response World).

(** The formatter's built-ins (see [Normalizer]) and [String(v)] of a
    template literal for a value that is no string. *)
Variable parseDate : jsstring -> option Z.
Variable parseFloat : jsstring -> spec_float.
Variable toLowerCase : jsstring -> jsstring.
Variable toString : jsvalue -> jsstring.

(** The editor: [get-block] on a tag block, the commands
    [core.editor.insertTag] (which answers the id of the tag block, or
    nothing), [core.editor.setProperties] and
    [core.editor.setBlocksContent] with the one text item
    [{ t: "t", v }]. *)
Variable get_tag_block : Z -> M World (option Reconciler.TagBlock).
Variable insertTag : Z -> jsstring -> list Property -> M World (option Z).
Variable setProperties : Z -> list PropDef -> M World unit.
Variable setBlocksContent : Z -> jsstring -> M World unit.

(** [typeof orca !== 'undefined' && orca.commands] *)
Variable commands_available : bool.

Local Open Scope async_scope.

Definition handleBlockExtraction
  (block : option UrlLocator.Block) (rules : list RuleMatcher.Rule)
  : M World ExtractionResult :=
  let url := UrlLocator.findUrlInBlock block in
  if negb (nonempty url) then throw (Error (js "No URL found in block"))
  else
    matchedRule <- lift (RuleMatcher.matchRule RegExp_new RegExp_test url rules) ;;
    match matchedRule with
    | None => throw (Error (js "No matching rule found for this URL"))
    | Some matchedRule =>
        metadata <-
          Extraction.extractMetadataStatic isValidUrl fetch_page parseFromString
            getAttribute textContent runScript url
            (RuleMatcher.script matchedRule) ;;
        ret (mkResult url metadata matchedRule)
    end.

(** [`${v}`] *)
Definition template (v : jsvalue) : jsstring :=
  match v with
  | VString s => s
  | other => toString other
  end.

(** The last part of [applyMetadataToBlock]: the block's content
    becomes the title in brackets. *)
Definition updateTitle (blockId : Z) (formattedProperties : list Property)
  : M World unit :=
  match find (fun p => jseqb (name p) titleName) formattedProperties with
  | Some titleProperty =>
      if truthy (value titleProperty) then
        try_await
          (setBlocksContent blockId
             (openBracket :: template (value titleProperty) ++ [closeBracket]))
          (fun _ => ret tt)
      else ret tt
  | None => ret tt
  end.

Definition applyMetadataToBlock
  (blockId : Z) (tagName : jsstring) (metadata : list Property)
  (downloadCover : bool) : M World unit :=
  try_await
    (processedProperties <-
       Assets.processProperties atob upload_asset_binary upload_asset_url
         fetch_image metadata downloadCover ;;
     let formattedProperties :=
       Normalizer.formatProperties parseDate parseFloat toLowerCase
         processedProperties in
     if commands_available then
       tagBlockId <- insertTag blockId tagName formattedProperties ;;
       _ <- match tagBlockId with
            | Some id =>
                if (id =? 0)%Z then ret tt
                else Reconciler.syncTagSchema get_tag_block setProperties id
                       formattedProperties
            | None => ret tt
            end ;;
       updateTitle blockId formattedProperties
     else ret tt)
    (fun error => throw error).

(** *** Finding the rule and extracting *)

(** X15. A block none of whose items holds a URL (no link with a
    target, no text with [http://] or [https://] and something after
    it), also a block without content or no block at all, makes
    [handleBlockExtraction] reject with "No URL found in block"; no rule
    is tried and nothing is fetched. *)
Theorem handleBlockExtraction_no_url
  (block : option UrlLocator.Block) (rules : list RuleMatcher.Rule) (w : World) :
  Forall UrlLocator.NoUrl (UrlLocator.contentOf block) ->
  handleBlockExtraction block rules w
  = (Throw (Error (js "No URL found in block")), w).
Proof.
  intros Hno.
  assert (UrlLocator.findUrlInBlock block = []) as H.
  { destruct block as [[[items|]]|]; try reflexivity. simpl in *.
    destruct (UrlLocator.scan_spec items)
      as [(pre & item & post & -> & _ & Hu & _) | [_ Hnil]]; [|exact Hnil].
    exfalso. apply Forall_app in Hno as [_ Hno].
    inversion Hno as [|? ? Hitem _]; subst. exact (Hitem _ Hu). }
  unfold handleBlockExtraction. rewrite H. reflexivity.
Qed.

(** X16. When the block holds a URL that no rule of the list matches,
    [handleBlockExtraction] rejects with "No matching rule found for
    this URL" and nothing is fetched. *)
Theorem handleBlockExtraction_no_rule
  (block : option UrlLocator.Block) (rules : list RuleMatcher.Rule) (w : World) :
  UrlLocator.findUrlInBlock block <> [] ->
  (forall r, In r rules ->
     ~ RuleMatcher.Matches RegExp_new RegExp_test
         (UrlLocator.findUrlInBlock block) r) ->
  handleBlockExtraction block rules w
  = (Throw (Error (js "No matching rule found for this URL")), w).
Proof.
  intros Hu Hno. unfold handleBlockExtraction.
  destruct (UrlLocator.findUrlInBlock block) as [|ch u] eqn:E; [congruence|].
  cbn [nonempty negb]. unfold await, lift.
  destruct (RuleMatcher.matchRule_first RegExp_new RegExp_test (ch :: u) rules)
    as [(pre & r & post & _ & -> & HM & _) | [-> _]]; [|reflexivity].
  exfalso. apply (Hno r); [apply in_elt | exact HM].
Qed.

(** X17. What [handleBlockExtraction] resolves with: the URL found in
    the block, as found; the first rule of the list that is enabled and
    matches it; and the properties that static extraction returned for
    that URL under the script of that rule. *)
Theorem handleBlockExtraction_result
  (block : option UrlLocator.Block) (rules : list RuleMatcher.Rule)
  (w w' : World) (res : ExtractionResult) :
  handleBlockExtraction block rules w = (Ok res, w') ->
  url res = UrlLocator.findUrlInBlock block /\ url res <> [] /\
  (exists pre post,
     rules = pre ++ rule res :: post /\
     RuleMatcher.Matches RegExp_new RegExp_test (url res) (rule res) /\
     Forall (fun r => ~ RuleMatcher.Matches RegExp_new RegExp_test (url res) r)
            pre) /\
  Extraction.extractMetadataStatic isValidUrl fetch_page parseFromString
    getAttribute textContent runScript (url res)
    (RuleMatcher.script (rule res)) w
  = (Ok (metadata res), w').
Proof.
  unfold handleBlockExtraction.
  destruct (UrlLocator.findUrlInBlock block) as [|ch u] eqn:E;
    [intros H; discriminate H|].
  cbn [nonempty negb]. unfold await at 1. unfold lift.
  destruct (RuleMatcher.matchRule_first RegExp_new RegExp_test (ch :: u) rules)
    as [(pre & r & post & -> & -> & HM & Hpre) | [-> _]];
    [|intros H; discriminate H].
  unfold await, ret.
  destruct (Extraction.extractMetadataStatic _ _ _ _ _ _ _ _ w)
    as [[md|e] w1] eqn:Ex; [|intros H; discriminate H].
  intros H. injection H as <- <-. cbn [url rule metadata].
  split; [reflexivity|]. split; [discriminate|]. split; [|exact Ex].
  exists pre, post. auto.
Qed.

(** *** Applying the tag *)

Lemma syncTagSchema_resolves id props w :
  exists w',
    Reconciler.syncTagSchema get_tag_block setProperties id props w = (Ok tt, w').
Proof.
  unfold Reconciler.syncTagSchema, try_await, await, ret.
  destruct (get_tag_block id w) as [[[tb|]|e] w1]; eauto.
  destruct (Reconciler.stage _ props); eauto.
  destruct (setProperties id _ w1) as [[[]|e] w2]; eauto.
Qed.

Lemma updateTitle_resolves blockId formatted w :
  exists w', updateTitle blockId formatted w = (Ok tt, w').
Proof.
  unfold updateTitle, try_await, ret.
  destruct (find _ formatted) as [p|]; eauto.
  destruct (truthy (value p)); eauto.
  destruct (setBlocksContent blockId _ w) as [[[]|e] w1]; eauto.
Qed.

(** X18. [applyMetadataToBlock] rejects exactly when inserting the tag
    rejects, and then with that error: asset resolution never fails, and
    what goes wrong while the schema is reconciled or the block content
    is rewritten is swallowed.  The tag is inserted with the formatted
    form of the processed properties. *)
Theorem applyMetadataToBlock_rejects_with_insertTag
  (blockId : Z) (tagName : jsstring) (metadata : list Property)
  (downloadCover : bool) (w : World) :
  commands_available = true ->
  exists processed w1,
    Assets.processProperties atob upload_asset_binary upload_asset_url
      fetch_image metadata downloadCover w = (Ok processed, w1) /\
    match insertTag blockId tagName
            (Normalizer.formatProperties parseDate parseFloat toLowerCase
               processed) w1 with
    | (Throw e, w2) =>
        applyMetadataToBlock blockId tagName metadata downloadCover w
        = (Throw e, w2)
    | (Ok _, _) =>
        exists w',
          applyMetadataToBlock blockId tagName metadata downloadCover w
          = (Ok tt, w')
    end.
Proof.
  intros Hc.
  destruct (Assets.processProperties_spec atob upload_asset_binary
              upload_asset_url fetch_image metadata downloadCover w)
    as (processed & w1 & Hrun & _).
  exists processed, w1. split; [exact Hrun|].
  unfold applyMetadataToBlock. rewrite try_rethrow.
  erewrite await_ok by exact Hrun. cbv zeta. rewrite Hc.
  destruct (insertTag blockId tagName _ w1) as [[tagBlockId|e] w2] eqn:Ei.
  - erewrite await_ok by exact Ei.
    assert (exists w3,
              match tagBlockId with
              | Some id =>
                  if (id =? 0)%Z then ret tt
                  else Reconciler.syncTagSchema get_tag_block setProperties id
                         (Normalizer.formatProperties parseDate parseFloat
                            toLowerCase processed)
              | None => ret tt
              end w2 = (Ok tt, w3)) as (w3 & Hs).
    { destruct tagBlockId as [id|]; [|unfold ret; eauto].
      destruct (id =? 0)%Z; [unfold ret; eauto|]. apply syncTagSchema_resolves. }
    erewrite await_ok by exact Hs.
    apply updateTitle_resolves.
  - erewrite await_throw by exact Ei. reflexivity.
Qed.

(** The block content is rewritten only for a title that is there
    and truthy: without a property named like the title, or when the
    first such property has a falsy value (the empty string among them),
    [updateTitle] leaves the world alone.  Otherwise it makes the one
    call that sets the content to the title in brackets and resolves in
    the world that call left, also when the editor rejects. *)
Lemma updateTitle_only_for_title
  (blockId : Z) (formatted : list Property) (w : World) :
  match find (fun p => jseqb (name p) titleName) formatted with
  | Some titleProperty =>
      if truthy (value titleProperty) then
        updateTitle blockId formatted w
        = (Ok tt,
           snd (setBlocksContent blockId
                  (openBracket :: template (value titleProperty)
                     ++ [closeBracket]) w))
      else updateTitle blockId formatted w = (Ok tt, w)
  | None => updateTitle blockId formatted w = (Ok tt, w)
  end.
Proof.
  unfold updateTitle. destruct (find _ formatted) as [p|]; [|reflexivity].
  destruct (truthy (value p)); [|reflexivity].
  unfold try_await, ret.
  destruct (setBlocksContent blockId _ w) as [[[]|e] w1]; reflexivity.
Qed.

End Host.

(** *** A host to run the pipeline on *)

(** The world is a list of messages that nothing here adds to.  Pages
    are fetched with status 200 and an empty document, the asset store
    refuses everything, the editor inserts the tag into tag block 7,
    whose schema is empty, and accepts every command. *)
Definition Log : Type := list (jsstring * jsstring).

Definition log_fetch_page (u : jsstring) : M Log (Extraction.Response Log) :=
  fun w =>
    (Ok (Extraction.mkResponse true 200 (fun w' => (Ok (js "<html></html>"), w'))), w).

Definition log_upload_binary (contentType : jsstring) (buffer : list N)
  : M Log (option jsstring) := fun w => (Ok None, w).

Definition log_upload_url (u : jsstring) : M Log (option jsstring) :=
  fun w => (Ok None, w).

Definition log_fetch_image (u : jsstring) : M Log (Assets.Response Log) :=
  fun w => (Throw (Error (js "Failed to fetch")), w).

Definition log_get_tag_block (id : Z) : M Log (option Reconciler.TagBlock) :=
  fun w => (Ok (Some (Reconciler.mkTagBlock (Some []))), w).

Definition log_insertTag (blockId : Z) (tagName : jsstring)
  (props : list Property) : M Log (option Z) :=
  fun w => (Ok (Some 7%Z), w).

Definition log_setProperties (id : Z) (props : list PropDef) : M Log unit :=
  fun w => (Ok tt, w).

Definition log_setBlocksContent (id : Z) (v : jsstring) : M Log unit :=
  fun w => (Ok tt, w).

Definition bookRule : RuleMatcher.Rule :=
  RuleMatcher.mkRule (js "Douban Book") true
    (js "/book\.douban\.com\/subject\//i") (js "Book") true
    [js "return baseMeta;"].

Definition bookmarkRule : RuleMatcher.Rule :=
  RuleMatcher.mkRule (js "Generic") true (js ".*") (js "Bookmark") false
    [js "return baseMeta;"].

Definition linkBlock (u : jsstring) : UrlLocator.Block :=
  UrlLocator.mkBlock (Some [UrlLocator.mkItem (js "a") (Some u) None]).

Definition textBlock (v : jsstring) : UrlLocator.Block :=
  UrlLocator.mkBlock (Some [UrlLocator.mkItem (js "t") None (Some v)]).

Definition log_handle
  : option UrlLocator.Block -> list RuleMatcher.Rule -> M Log ExtractionResult :=
  handleBlockExtraction RegExpFragment.RegExp_new RegExpFragment.RegExp_test
    Extraction.demo_isValidUrl log_fetch_page (fun html : jsstring => html)
    (fun _ _ _ => None) (fun _ _ => None) Extraction.demo_runScript.

Definition log_apply
  : Z -> jsstring -> list Property -> bool -> M Log unit :=
  applyMetadataToBlock Assets.demo_atob log_upload_binary log_upload_url
    log_fetch_image Normalizer.noDate Normalizer.nanFloat Normalizer.asciiLower
    (fun _ => []) log_get_tag_block log_insertTag log_setProperties
    log_setBlocksContent true.

Lemma handleBlockExtraction_no_url_witness :
  log_handle (Some (textBlock (js "to read: Dune"))) [bookRule; bookmarkRule] []
  = (Throw (Error (js "No URL found in block")), []).
Proof.
  unfold log_handle. apply handleBlockExtraction_no_url.
  constructor; [|constructor].
  intros u [(Ht & _) | (_ & text & Hv & Hf)]; [discriminate Ht|].
  injection Hv as <-.
  eapply UrlLocator.FirstUrlIn_not_NoUrlIn;
    [exact Hf | apply UrlLocator.no_http_no_url; reflexivity].
Defined.

Lemma handleBlockExtraction_no_rule_witness :
  log_handle (Some (linkBlock (js "https://example.org/"))) [bookRule] []
  = (Throw (Error (js "No matching rule found for this URL")), []).
Proof.
  unfold log_handle. apply handleBlockExtraction_no_rule.
  - discriminate.
  - intros r [<- | []] [_ (regex & Hc & Ht)].
    vm_compute in Hc. injection Hc as <-. vm_compute in Ht. discriminate Ht.
Defined.

Lemma handleBlockExtraction_result_witness :
  url (mkResult RuleMatcher.doubanUrl
         (Extraction.getGenericMetadata (fun _ _ _ => None) (fun _ _ => None)
            (js "<html></html>") RuleMatcher.doubanUrl) bookRule)
  = UrlLocator.findUrlInBlock (Some (linkBlock RuleMatcher.doubanUrl)) /\
  RuleMatcher.doubanUrl <> [] /\
  (exists pre post,
     [bookRule; bookmarkRule] = pre ++ bookRule :: post /\
     RuleMatcher.Matches RegExpFragment.RegExp_new RegExpFragment.RegExp_test
       RuleMatcher.doubanUrl bookRule /\
     Forall (fun r => ~ RuleMatcher.Matches RegExpFragment.RegExp_new
                         RegExpFragment.RegExp_test RuleMatcher.doubanUrl r) pre) /\
  Extraction.extractMetadataStatic Extraction.demo_isValidUrl log_fetch_page
    (fun html : jsstring => html) (fun _ _ _ => None) (fun _ _ => None)
    Extraction.demo_runScript RuleMatcher.doubanUrl
    (RuleMatcher.script bookRule) []
  = (Ok (Extraction.getGenericMetadata (fun _ _ _ => None) (fun _ _ => None)
           (js "<html></html>") RuleMatcher.doubanUrl), []).
Proof.
  apply (@handleBlockExtraction_result Log _ RegExpFragment.RegExp_new
           RegExpFragment.RegExp_test jsstring Extraction.demo_isValidUrl
           log_fetch_page (fun html : jsstring => html) (fun _ _ _ => None)
           (fun _ _ => None) Extraction.demo_runScript
           (Some (linkBlock RuleMatcher.doubanUrl)) [bookRule; bookmarkRule]
           [] []
           (mkResult RuleMatcher.doubanUrl
              (Extraction.getGenericMetadata (fun _ _ _ => None)
                 (fun _ _ => None) (js "<html></html>") RuleMatcher.doubanUrl)
              bookRule)).
  reflexivity.
Defined.

Lemma applyMetadataToBlock_rejects_with_insertTag_witness :
  exists w',
    log_apply 1 (js "Bookmark")
      [mkProperty titleName Text (VString (js "Dune")) None] false []
    = (Ok tt, w').
Proof.
  destruct (@applyMetadataToBlock_rejects_with_insertTag Log Assets.demo_atob
              log_upload_binary log_upload_url log_fetch_image Normalizer.noDate
              Normalizer.nanFloat Normalizer.asciiLower (fun _ => [])
              log_get_tag_block log_insertTag log_setProperties
              log_setBlocksContent true 1%Z (js "Bookmark")
              [mkProperty titleName Text (VString (js "Dune")) None] false []
              eq_refl)
    as (processed & w1 & _ & H).
  exact H.
Defined.

End Pipeline.

(* ===================================================================== *)
(** ** Further properties: the schema reconciler *)
(* ===================================================================== *)

Module ReconcilerFacts.

Import Reconciler.

(** The definition staged for a property whose name the schema lacks. *)
Definition toDef (prop : Property) : PropDef :=
  mkPropDef (name prop) (type prop) (typeArgs prop).

Lemma loop_empty props acc :
  fold_left step props ([], acc)
  = ([], acc ++ map (fun p => Addition (toDef p)) props).
Proof.
  revert acc. induction props as [|p rest IH]; intros acc; simpl.
  - now rewrite app_nil_r.
  - rewrite IH, <- app_assoc. reflexivity.
Qed.

(** X20. Against an empty schema every property is staged as an
    addition with its name, type and typeArgs, in order; properties of
    one name are all staged, since the schema read at the start is what
    every property is looked up in. *)
Theorem stage_empty_schema (props : list Property) :
  stage [] props = map toDef props.
Proof.
  unfold stage, stage_loop. rewrite loop_empty. simpl.
  rewrite map_map. reflexivity.
Qed.

(** The types of the two properties do not call for a merge. *)
Definition NoMerge (schema : list PropDef) (prop : Property) : Prop :=
  exists existingProp,
    findByName (name prop) schema = Some existingProp /\
    (type prop <> TextChoices \/ def_type existingProp <> TextChoices).

Lemma PropType_eqb_neq a b : a <> b -> PropType_eqb a b = false.
Proof.
  intros H. destruct (PropType_eqb a b) eqn:E; [|reflexivity].
  apply PropType_eqb_eq in E. congruence.
Qed.

(** X21. A property whose name the schema has, when the new or the
    existing type is not TextChoices, stages nothing: a pass in which
    every property is of that kind stages nothing at all, whatever the
    types and typeArgs on the two sides are. *)
Theorem stage_collisions_untouched
  (schema : list PropDef) (props : list Property) :
  Forall (NoMerge schema) props -> stage schema props = [].
Proof.
  intros H. unfold stage, stage_loop.
  assert (fold_left step props (schema, []) = (schema, [])) as ->; [|reflexivity].
  induction H as [|p rest (ex & Hf & Hty) _ IH]; simpl; [reflexivity|].
  rewrite Hf.
  replace (PropType_eqb (type p) TextChoices
           && PropType_eqb (def_type ex) TextChoices) with false; [exact IH|].
  symmetry. apply andb_false_iff.
  destruct Hty as [Hty | Hty]; [left | right]; now apply PropType_eqb_neq.
Qed.

Lemma stage_collisions_untouched_witness :
  stage [mkPropDef (js "rating") Number None;
         mkPropDef (js "genre") Text None]
        [mkProperty (js "rating") Text (VString (js "9.1")) None;
         genreProp]
  = [].
Proof.
  apply stage_collisions_untouched. constructor; [|constructor; [|constructor]].
  - eexists. split; [reflexivity|]. left. discriminate.
  - eexists. split; [reflexivity|]. right. discriminate.
Defined.

Section Host.

Variable World : Type.
Variable get_block : Z -> M World (option TagBlock).
Variable setProperties : Z -> list PropDef -> M World unit.

(** X22. [syncTagSchema] never rejects.  It reads the tag block once;
    when the read rejects or finds no block, or when nothing is staged,
    it does nothing more; otherwise it issues one [setProperties]
    command carrying what was staged, and swallows its rejection. *)
Theorem syncTagSchema_never_rejects
  (id : Z) (props : list Property) (w : World) :
  exists w',
    syncTagSchema get_block setProperties id props w = (Ok tt, w') /\
    match get_block id w with
    | (Ok (Some tb), w1) =>
        match stage (match properties tb with Some l => l | None => [] end)
                    props with
        | [] => w' = w1
        | d :: l => w' = snd (setProperties id (d :: l) w1)
        end
    | (_, w1) => w' = w1
    end.
Proof.
  unfold syncTagSchema, try_await, await, ret, jsonCopy.
  destruct (get_block id w) as [[[tb|]|e] w1]; eauto.
  destruct (stage _ props) as [|d l]; eauto.
  destruct (setProperties id (d :: l) w1) as [[[]|e] w2]; eauto.
Qed.

End Host.

(** *** Schemas only grow *)

(** [after] is [before] with the same name and type, and with its
    choices kept in front of what was added. *)
Definition Keeps (before after : PropDef) : Prop :=
  def_name after = def_name before /\
  def_type after = def_type before /\
  exists added,
    choicesOf (def_typeArgs after) = choicesOf (def_typeArgs before) ++ added.

Lemma Keeps_refl p : Keeps p p.
Proof. repeat split. exists []. now rewrite app_nil_r. Qed.

Lemma findByName_name nm props p : findByName nm props = Some p -> def_name p = nm.
Proof.
  unfold findByName. intros H. apply find_some in H as [_ H].
  now apply jseqb_eq.
Qed.

(** The state of the loop against the schema [st0] it started from. *)
Definition Grown (st0 st : list PropDef) : Prop :=
  forall nm,
    match findByName nm st0 with
    | None => findByName nm st = None
    | Some before =>
        exists now,
          findByName nm st = Some now /\ Keeps before now /\
          (def_type before <> TextChoices -> now = before)
    end.

Definition GoodEntry (st0 : list PropDef) (e : staged) : Prop :=
  match e with
  | Addition d => findByName (def_name d) st0 = None
  | Merge nm ty base shares fresh =>
      exists before,
        findByName nm st0 = Some before /\
        def_type before = TextChoices /\ ty = TextChoices /\
        (shares = false ->
         exists added, fresh = choicesOf (def_typeArgs before) ++ added)
  end.

Lemma Grown_refl st0 : Grown st0 st0.
Proof.
  intros nm. destruct (findByName nm st0) as [p|] eqn:E; [|reflexivity].
  exists p. split; [reflexivity|]. split; [apply Keeps_refl | reflexivity].
Qed.

Lemma step_grown st0 st acc prop :
  Grown st0 st -> Forall (GoodEntry st0) acc ->
  Grown st0 (fst (step (st, acc) prop)) /\
  Forall (GoodEntry st0) (snd (step (st, acc) prop)).
Proof.
  intros Hg Ha. unfold step.
  destruct (findByName (name prop) st) as [cur|] eqn:Ef.
  - destruct (PropType_eqb (type prop) TextChoices
              && PropType_eqb (def_type cur) TextChoices) eqn:Et;
      [|split; assumption].
    apply andb_true_iff in Et as [Etp Etc].
    apply PropType_eqb_eq in Etp, Etc.
    pose proof (Hg (name prop)) as Hnm. rewrite Ef in Hnm.
    destruct (findByName (name prop) st0) as [before|] eqn:E0; [|discriminate].
    destruct Hnm as (now & Hnow & (Hkn & Hkt & added0 & Hkc) & _).
    injection Hnow as <-.
    cbv zeta.
    set (added := pushed (choicesOf (def_typeArgs cur)) (choicesOf (typeArgs prop))).
    assert (def_type before = TextChoices) as Hbt by congruence.
    split.
    + destruct (ownsChoices (def_typeArgs cur)) eqn:Eo; cbn [fst]; [|exact Hg].
      intros nm. specialize (Hg nm).
      destruct (list_eq_dec N.eq_dec nm (name prop)) as [-> | Hne].
      * rewrite E0. erewrite findByName_setChoices_same by exact Ef.
        eexists. split; [reflexivity|]. split; [|congruence].
        split; [exact Hkn | split; [exact Hkt|]]. cbn [def_typeArgs].
        unfold ownsChoices in Eo.
        destruct (def_typeArgs cur) as [a|]; [|discriminate]. simpl.
        exists (added0 ++ added).
        unfold choicesOf in Hkc at 1. rewrite Hkc. now rewrite app_assoc.
      * rewrite findByName_setChoices_other by exact Hne. exact Hg.
    + cbn [snd]. destruct added as [|a added'] eqn:Ea; [exact Ha|].
      apply Forall_app. split; [exact Ha|]. constructor; [|constructor].
      exists before. repeat split; try assumption.
      intros _. exists (added0 ++ a :: added'). rewrite Hkc.
      now rewrite app_assoc.
  - split; [exact Hg|]. cbn [snd]. apply Forall_app. split; [exact Ha|].
    constructor; [|constructor]. cbn [GoodEntry def_name].
    specialize (Hg (name prop)). rewrite Ef in Hg.
    destruct (findByName (name prop) st0); [|reflexivity].
    destruct Hg as (now & Hnow & _). discriminate.
Qed.

Lemma loop_grown st0 props :
  forall st acc,
    Grown st0 st -> Forall (GoodEntry st0) acc ->
    Grown st0 (fst (fold_left step props (st, acc))) /\
    Forall (GoodEntry st0) (snd (fold_left step props (st, acc))).
Proof.
  induction props as [|p rest IH]; intros st acc Hg Ha; cbn [fold_left].
  - split; assumption.
  - destruct (@step_grown st0 st acc p Hg Ha) as [Hg1 Ha1].
    destruct (step (st, acc) p) as [st1 acc1]. now apply IH.
Qed.

(** A staged definition either has a new name or keeps a TextChoices
    property of the schema. *)
Definition Compatible (st0 : list PropDef) (d : PropDef) : Prop :=
  match findByName (def_name d) st0 with
  | None => True
  | Some before => def_type before = TextChoices /\ Keeps before d
  end.

Lemma settle_compatible st0 final e :
  Grown st0 final -> GoodEntry st0 e -> Compatible st0 (settle final e).
Proof.
  intros Hg He. unfold Compatible. destruct e as [d | nm ty base shares fresh].
  - cbn [settle]. cbn [GoodEntry] in He. now rewrite He.
  - cbn [settle def_name]. destruct He as (before & E0 & Hbt & -> & Hfresh).
    rewrite E0. split; [exact Hbt|].
    split; [cbn [def_name]; symmetry; eapply findByName_name; exact E0|].
    split; [cbn [def_type]; now symmetry|].
    cbn [def_typeArgs]. unfold mergedTypeArgs, choicesOf at 1. cbn [choices].
    destruct shares.
    + specialize (Hg nm). rewrite E0 in Hg.
      destruct Hg as (now & -> & (_ & _ & added & Hc) & _). now exists added.
    + now apply Hfresh.
Qed.

(** Every property of [st0] is still there, kept. *)
Definition Kept (st0 st : list PropDef) : Prop :=
  forall nm before,
    findByName nm st0 = Some before ->
    exists now,
      findByName nm st = Some now /\ Keeps before now /\
      (def_type before <> TextChoices -> now = before).

Lemma Kept_refl st0 : Kept st0 st0.
Proof.
  intros nm before E. exists before.
  split; [exact E|]. split; [apply Keeps_refl | reflexivity].
Qed.

Lemma applyStaged_kept st0 l :
  Forall (Compatible st0) l ->
  forall acc, Kept st0 acc -> Kept st0 (applyStaged l acc).
Proof.
  unfold applyStaged. induction 1 as [|d l Hd _ IH]; intros acc Hk; simpl;
    [exact Hk|].
  apply IH. intros nm before E0.
  destruct (list_eq_dec N.eq_dec nm (def_name d)) as [-> | Hne].
  - rewrite upsert_same. unfold Compatible in Hd. rewrite E0 in Hd.
    destruct Hd as [Hbt Hkeeps]. exists d. split; [reflexivity|].
    split; [exact Hkeeps | congruence].
  - rewrite upsert_other by exact Hne. now apply Hk.
Qed.

Lemma stage_compatible st0 props : Forall (Compatible st0) (stage st0 props).
Proof.
  unfold stage, stage_loop.
  destruct (@loop_grown st0 props st0 [] (Grown_refl st0) (Forall_nil _))
    as [Hg Ha].
  destruct (fold_left step props (st0, [])) as [final entries].
  cbn [fst snd] in Hg, Ha. apply Forall_forall. intros d Hin.
  apply in_map_iff in Hin as (e & <- & He).
  rewrite Forall_forall in Ha. now apply settle_compatible; [|apply Ha].
Qed.

(** X23. Schemas only grow.  Whatever properties a pass is run with,
    every property the schema had is still found under its name when
    the pass has been applied, with the same type and with its choices
    kept, in order, in front of any that were added; a property that is
    not TextChoices is exactly as it was. *)
Theorem storeSync_schema_grows
  (id : Z) (props : list Property) (w : Store) (nm : jsstring)
  (before : PropDef) :
  findByName nm (schemaOf w) = Some before ->
  exists now,
    findByName nm (schemaOf (snd (storeSync id props w))) = Some now /\
    def_type now = def_type before /\
    (exists added,
       choicesOf (def_typeArgs now) = choicesOf (def_typeArgs before) ++ added) /\
    (def_type before <> TextChoices -> now = before).
Proof.
  intros E0. rewrite storeSync_run. cbn [snd].
  assert (Kept (schemaOf w)
            (schemaOf
               match block w with
               | Some _ =>
                   match stage (schemaOf w) props with
                   | [] => w
                   | d :: l =>
                       mkStore
                         (Some (mkTagBlock
                                  (Some (applyStaged (d :: l) (schemaOf w)))))
                         (commands w ++ [d :: l])
                   end
               | None => w
               end)) as Hk.
  { destruct (block w); [|apply Kept_refl].
    pose proof (stage_compatible (schemaOf w) props) as Hc.
    destruct (stage (schemaOf w) props) as [|d l]; [apply Kept_refl|].
    unfold schemaOf at 2. cbn [block properties].
    apply applyStaged_kept; [exact Hc | apply Kept_refl]. }
  destruct (Hk nm before E0) as (now & Hf & (_ & Ht & Hc) & Hsame).
  exists now. auto.
Qed.

Lemma storeSync_schema_grows_witness :
  exists now,
    findByName (js "genre")
      (schemaOf (snd (storeSync 1 [genreProp; titleProp] genreStore)))
    = Some now /\
    def_type now = TextChoices /\
    (exists added,
       choicesOf (def_typeArgs now) = [mkChoice (js "fiction") []] ++ added) /\
    (TextChoices <> TextChoices ->
     now = mkPropDef (js "genre") TextChoices
             (Some (mkTypeArgs None (Some [mkChoice (js "fiction") []])
                               [(js "icon", js "ti ti-tag")]))).
Proof.
  apply (@storeSync_schema_grows 1 [genreProp; titleProp] genreStore (js "genre")
           (mkPropDef (js "genre") TextChoices
              (Some (mkTypeArgs None (Some [mkChoice (js "fiction") []])
                                [(js "icon", js "ti ti-tag")])))).
  reflexivity.
Defined.

(** A pass issues at most one command, and never an empty one: the
    commands after the pass are those before it, followed by nothing or
    by one non-empty batch, which is what was staged. *)
Lemma storeSync_one_command (id : Z) (props : list Property) (w : Store) :
  commands (snd (storeSync id props w)) = commands w \/
  exists d l,
    stage (schemaOf w) props = d :: l /\
    commands (snd (storeSync id props w)) = commands w ++ [d :: l].
Proof.
  rewrite storeSync_run. cbn [snd].
  destruct (block w); [|now left].
  destruct (stage (schemaOf w) props) as [|d l]; [now left|].
  right. exists d, l. split; reflexivity.
Qed.

End ReconcilerFacts.

(* ===================================================================== *)
(** ** Further properties: from extraction to the tag *)
(* ===================================================================== *)

Module Composition.

Section Host.

Variable World : Type.
Variable Document : Type.
Variable getAttribute : Document -> jsstring -> jsstring -> option jsstring.
Variable textContent : Document -> jsstring -> option jsstring.
Variable atob : jsstring -> result jsstring.
Variable upload_asset_binary : jsstring -> list N -> M World (option jsstring).
Variable upload_asset_url : jsstring -> M World (option jsstring).
Variable fetch_image : jsstring -> M World (Assets.Response World).
Variable parseDate : jsstring -> option Z.
Variable parseFloat : jsstring -> spec_float.
Variable toLowerCase : jsstring -> jsstring.

Lemma processItem_skip downloadCover item w :
  Assets.shouldResolve downloadCover item = None ->
  Assets.processItem atob upload_asset_binary upload_asset_url fetch_image
    downloadCover item w = (Ok item, w).
Proof.
  intros H. unfold Assets.processItem. rewrite H.
  unfold await, ret. destruct item; reflexivity.
Qed.

(** X8. The properties the tag is inserted with are the extracted ones,
    one for one: processed and formatted, the list has the length and
    order of the metadata, and every property has kept its name and its
    type. *)
Theorem tag_properties_frame
  (metadata : list Property) (downloadCover : bool) (w : World) :
  exists processed w1,
    Assets.processProperties atob upload_asset_binary upload_asset_url
      fetch_image metadata downloadCover w = (Ok processed, w1) /\
    let formatted :=
      Normalizer.formatProperties parseDate parseFloat toLowerCase processed in
    List.length formatted = List.length metadata /\
    map name formatted = map name metadata /\
    map type formatted = map type metadata.
Proof.
  destruct (Assets.processProperties_spec atob upload_asset_binary
              upload_asset_url fetch_image metadata downloadCover w)
    as (processed & w1 & Hrun & H).
  exists processed, w1. split; [exact Hrun|]. clear Hrun. cbv zeta.
  destruct (NormalizerFacts.formatProperties_frame parseDate parseFloat
              toLowerCase processed) as (-> & -> & ->).
  induction H as [|item o md os (Hn & Ht & _) _ (IHl & IHn & IHt)];
    simpl; [repeat split|].
  rewrite IHl, IHn, IHt, Hn, Ht. repeat split.
Qed.

(** X24. Of the generic metadata of a page only the cover can change on
    its way through the asset resolver: the link and the title come out
    as they went in, whatever the asset store and the network do, and
    the cover keeps its name, type and typeArgs. *)
Theorem processProperties_generic
  (doc : Document) (url : jsstring) (downloadCover : bool) (w : World) :
  exists link title cover v w',
    Extraction.getGenericMetadata getAttribute textContent doc url
    = [link; title; cover] /\
    value link = VString url /\
    Assets.processProperties atob upload_asset_binary upload_asset_url
      fetch_image [link; title; cover] downloadCover w
    = (Ok [link; title;
           mkProperty (name cover) (type cover) v (typeArgs cover)], w').
Proof.
  unfold Extraction.getGenericMetadata. cbv zeta.
  match goal with
  | |- exists l t c v w', [?a; ?b; ?d] = _ /\ _ =>
      pose (link := a); pose (title := b); pose (cover := d)
  end.
  destruct (Assets.processItem_spec atob upload_asset_binary upload_asset_url
              fetch_image downloadCover cover w)
    as (o & w' & Hrun & Hn & Ht & Ha & _).
  exists link, title, cover, (value o), w'.
  split; [reflexivity|]. split; [reflexivity|].
  assert (Assets.shouldResolve downloadCover link = None) as Hl
    by (unfold Assets.shouldResolve; simpl; now rewrite andb_false_r).
  assert (Assets.shouldResolve downloadCover title = None) as Htl
    by (unfold Assets.shouldResolve; simpl; now rewrite andb_false_r).
  unfold Assets.processProperties. cbn [for_each].
  erewrite Pipeline.await_ok by (apply processItem_skip; exact Hl).
  erewrite Pipeline.await_ok;
    [|erewrite Pipeline.await_ok by (apply processItem_skip; exact Htl);
      erewrite Pipeline.await_ok;
        [|erewrite Pipeline.await_ok by exact Hrun;
          erewrite Pipeline.await_ok by reflexivity; reflexivity];
      reflexivity].
  unfold ret. rewrite <- Hn, <- Ht, <- Ha. destruct o; reflexivity.
Qed.

End Host.

End Composition.
